(** * Talos: the World orchestrator, its entity pool, component attachment,
      network roles, the physics system and the MoveBackward command.

    A shallow embedding of [Source/World/World.cpp],
    [Source/System/PhysicsSystem.cpp], [Source/Command/Actor/MoveBackward.hpp]
    and [Source/Network/Server/Server.hpp].  Pointers are slot indices,
    [None] is [nullptr]; dereferencing [nullptr] and a failed [Assert]
    abort the call.  Classes of the engine whose sources are not part of
    the development (entity pool, component factory, system manager,
    network back ends) are modelled from the design document and are
    marked as such. *)

From Stdlib Require Import ZArith String.
From stdpp Require Import base option list gmap.

(** ** Outcomes of a call *)

Inductive Fault : Type :=
| NullDereference
| AssertFailure (msg : string).

Inductive Outcome (A : Type) : Type :=
| Returns (a : A)
| Faults (f : Fault).
Arguments Returns {A} a.
Arguments Faults {A} f.

Definition Outcome_bind {A B : Type} (o : Outcome A) (k : A -> Outcome B)
  : Outcome B :=
  match o with
  | Returns a => k a
  | Faults f => Faults f
  end.

(** [p->...] on a nullable pointer. *)
Definition deref {A : Type} (p : option A) : Outcome A :=
  match p with
  | Some a => Returns a
  | None => Faults NullDereference
  end.

(** ** Components *)

Inductive ComponentKind : Type :=
| Actor | Camera | Light | Model | Physics | Scene.

Global Instance ComponentKind_eq_dec : EqDecision ComponentKind.
Proof. solve_decision. Defined.

(** A [float] is carried around as its bit pattern; the code modelled here
    copies such values and never computes with them. *)
Definition Real : Type := Z.

Record Vector3 : Type := mkVector3 { v_x : Real; v_y : Real; v_z : Real }.
Record Quaternion : Type :=
  mkQuaternion { q_w : Real; q_x : Real; q_y : Real; q_z : Real }.

(** [physx::PxTransform]: orientation [q] and position [p]. *)
Record PxTransform : Type := mkPxTransform { q : Quaternion; p : Vector3 }.

Record ActorComponent : Type := mkActorComponent { m_movingBackward : bool }.
Record CameraComponent : Type := mkCameraComponent { m_camera : nat }.
Record LightComponent : Type := mkLightComponent { m_light : nat }.
Record ModelComponent : Type := mkModelComponent { m_mesh : nat }.
(** [m_rigidActor] is the [PxRigidActor*] returned by [getRigidActor()]. *)
Record PhysicsComponent : Type :=
  mkPhysicsComponent { m_rigidActor : option nat }.
Record SceneComponent : Type :=
  mkSceneComponent { m_position : Vector3; m_orientation : Quaternion }.

(** Modelled from the spec: [ActorComponent::setMovingBackward], the setter
    of the flag that [MoveBackward.hpp] drives (the component headers are
    not part of the sources at hand). *)
Definition setMovingBackward (b : bool) (a : ActorComponent) : ActorComponent :=
  {| m_movingBackward := b |}.

(** Modelled from the spec: [SceneComponent::setPosition(x, y, z)] and
    [SceneComponent::setOrientation(w, x, y, z)], the setters the physics
    results are written through. *)
Definition setPosition (x y z : Real) (s : SceneComponent) : SceneComponent :=
  {| m_position := mkVector3 x y z; m_orientation := m_orientation s |}.
Definition setOrientation (w x y z : Real) (s : SceneComponent)
  : SceneComponent :=
  {| m_position := m_position s; m_orientation := mkQuaternion w x y z |}.

(** ** Fixed-capacity pools *)

(** Modelled from the spec: [Pool<T>] of [Pool/Pool.hpp], a fixed-size array
    of slots; [create] hands out a free slot or fails with [PoolExhausted],
    and does not initialise the object it hands out. *)
Record Slot (T : Type) : Type := mkSlot { inUse : bool; value : T }.
Arguments mkSlot {T} inUse value.
Arguments inUse {T} s.
Arguments value {T} s.

Abbreviation Pool T := (list (Slot T)).

Fixpoint firstFree {T : Type} (pool : Pool T) : option nat :=
  match pool with
  | [] => None
  | s :: rest => if inUse s then S <$> firstFree rest else Some 0
  end.

(** Modelled from the spec: [Pool<T>::create]; [None] is the [PoolExhausted]
    failure. *)
Definition Pool_create {T : Type} (pool : Pool T) : option nat * Pool T :=
  match firstFree pool with
  | Some i => (Some i, alter (fun s => mkSlot true (value s)) i pool)
  | None => (None, pool)
  end.

Definition Pool_get {T : Type} (pool : Pool T) (i : nat) : option T :=
  value <$> pool !! i.

Definition Pool_set {T : Type} (pool : Pool T) (i : nat) (v : T) : Pool T :=
  alter (fun s => mkSlot (inUse s) v) i pool.

(** Modelled from the spec: [ComponentFactory], one dedicated pool per
    component kind. *)
Record ComponentFactory : Type := mkComponentFactory {
  m_actorPool : Pool ActorComponent;
  m_cameraPool : Pool CameraComponent;
  m_lightPool : Pool LightComponent;
  m_modelPool : Pool ModelComponent;
  m_physicsPool : Pool PhysicsComponent;
  m_scenePool : Pool SceneComponent
}.

Definition createActorComponent (f : ComponentFactory)
  : option nat * ComponentFactory :=
  let '(c, pool) := Pool_create (m_actorPool f) in
  (c, mkComponentFactory pool (m_cameraPool f) (m_lightPool f)
        (m_modelPool f) (m_physicsPool f) (m_scenePool f)).
Definition createCameraComponent (f : ComponentFactory)
  : option nat * ComponentFactory :=
  let '(c, pool) := Pool_create (m_cameraPool f) in
  (c, mkComponentFactory (m_actorPool f) pool (m_lightPool f)
        (m_modelPool f) (m_physicsPool f) (m_scenePool f)).
Definition createLightComponent (f : ComponentFactory)
  : option nat * ComponentFactory :=
  let '(c, pool) := Pool_create (m_lightPool f) in
  (c, mkComponentFactory (m_actorPool f) (m_cameraPool f) pool
        (m_modelPool f) (m_physicsPool f) (m_scenePool f)).
Definition createModelComponent (f : ComponentFactory)
  : option nat * ComponentFactory :=
  let '(c, pool) := Pool_create (m_modelPool f) in
  (c, mkComponentFactory (m_actorPool f) (m_cameraPool f) (m_lightPool f)
        pool (m_physicsPool f) (m_scenePool f)).
Definition createPhysicsComponent (f : ComponentFactory)
  : option nat * ComponentFactory :=
  let '(c, pool) := Pool_create (m_physicsPool f) in
  (c, mkComponentFactory (m_actorPool f) (m_cameraPool f) (m_lightPool f)
        (m_modelPool f) pool (m_scenePool f)).
Definition createSceneComponent (f : ComponentFactory)
  : option nat * ComponentFactory :=
  let '(c, pool) := Pool_create (m_scenePool f) in
  (c, mkComponentFactory (m_actorPool f) (m_cameraPool f) (m_lightPool f)
        (m_modelPool f) (m_physicsPool f) pool).

(** ** Entities and the entity pool *)

Definition EntityID : Type := nat.

(** [EntityPtr]: the address of a slot of the pool's array, or [nullptr]. *)
Definition EntityPtr : Type := option nat.

(** Modelled from the spec: [Entity], an identity plus at most one attached
    component per kind; [m_alive] tells a handed-out slot from a free one. *)
Record Entity : Type := mkEntity {
  m_id : EntityID;
  m_alive : bool;
  m_components : ComponentKind -> option nat
}.

(** Modelled from the spec: [Entity::getComponent<Kind>()] and
    [Entity::getActorComponent()] return the attached component of that
    kind, or [nullptr]. *)
Definition getComponent (k : ComponentKind) (e : Entity) : option nat :=
  m_components e k.

(** Modelled from the spec: [Entity::attachComponent(component)] makes the
    component the entity's component of its kind. *)
Definition Entity_attachComponent (k : ComponentKind) (c : nat) (e : Entity)
  : Entity :=
  {| m_id := m_id e; m_alive := m_alive e;
     m_components := fun k' => if decide (k' = k) then Some c
                               else m_components e k' |}.

(** Modelled from the spec: [EntityPool], a fixed array of entity slots and
    the counter that gives every created entity a new identity. *)
Record EntityPool : Type := mkEntityPool {
  m_pool : list Entity;
  m_nextID : EntityID
}.

Definition m_poolSize (pool : EntityPool) : nat := length (m_pool pool).

Fixpoint firstFreeEntity (slots : list Entity) : option nat :=
  match slots with
  | [] => None
  | e :: rest => if m_alive e then S <$> firstFreeEntity rest else Some 0
  end.

(** Modelled from the spec: [EntityPool::create] returns a handle to a free
    slot, which it marks live under a new unique ID, or fails with
    [PoolExhausted] ([nullptr]) when no slot is free. *)
Definition EntityPool_create (pool : EntityPool) : EntityPtr * EntityPool :=
  match firstFreeEntity (m_pool pool) with
  | Some i =>
      (Some i,
       {| m_pool := <[i := mkEntity (m_nextID pool) true (fun _ => None)]>
                      (m_pool pool);
          m_nextID := S (m_nextID pool) |})
  | None => (None, pool)
  end.

(** Modelled from the spec: [EntityPool::destroy] returns the slot to the
    free set and detaches its components; a no-op on a handle that is
    already free or foreign. *)
Definition EntityPool_destroy (e : EntityPtr) (pool : EntityPool)
  : EntityPool :=
  match e with
  | Some i =>
      match m_pool pool !! i with
      | Some ent =>
          if m_alive ent
          then {| m_pool := <[i := mkEntity (m_id ent) false (fun _ => None)]>
                              (m_pool pool);
                  m_nextID := m_nextID pool |}
          else pool
      | None => pool
      end
  | None => pool
  end.

Definition isLive (pool : EntityPool) (i : nat) : bool :=
  match m_pool pool !! i with
  | Some ent => m_alive ent
  | None => false
  end.

(** ** Network back ends *)

(** [Server::Player] of [Server.hpp], a participant record: display name
    and the participant's entity. *)
Record Player : Type := mkPlayer { username : string; entity : EntityPtr }.

Module Server.
(** [Server.hpp]: the initialised flag, the host and the table of
    connected players (keyed by the transport's GUID). *)
Record t : Type := mk {
  m_initialized : bool;
  m_host : option Player;
  m_players : gmap N Player
}.

(** [Server::initialized()]. *)
Definition initialized (s : t) : bool := m_initialized s.

(** Modelled from the spec: [Server::init(port, username)] brings the
    server up, after which [initialized()] is true. *)
Definition init (port : Z) (name : string) (s : t) : t :=
  {| m_initialized := true;
     m_host := Some (mkPlayer name None);
     m_players := m_players s |}.

(** Modelled from the spec: [Server::destroy()] tears down all participant
    records and leaves the server uninitialised. *)
Definition destroy (s : t) : t :=
  {| m_initialized := false; m_host := None; m_players := ∅ |}.
End Server.

Module Client.
(** Modelled from the spec: [Client], of which the core uses the
    initialised flag only. *)
Record t : Type := mk { m_initialized : bool }.

(** Modelled from the spec: [Client::initialized()]. *)
Definition initialized (c : t) : bool := m_initialized c.

(** Modelled from the spec: [Client::init()] connects the client, after
    which [initialized()] is true. *)
Definition init (c : t) : t := {| m_initialized := true |}.

(** Modelled from the spec: [Client::destroy()] leaves the client
    uninitialised. *)
Definition destroy (c : t) : t := {| m_initialized := false |}.
End Client.

Module NullNetwork.
(** Modelled from the spec: [NullNetwork], the Disabled strategy, is
    never initialised. *)
Definition initialized : bool := false.

(** Modelled from the spec: the [init], [destroy] and [update] of
    [NullNetwork] are no-ops on whatever state they are given. *)
Definition noop {S : Type} (s : S) : S := s.
End NullNetwork.

(** What a [Network*] can point to in [World.cpp]: the object behind the
    file-level [static Network* SNullNetwork], or one of the two injected
    back ends ([m_server.get()], [m_client.get()]). *)
Inductive NetworkPtr : Type :=
| SNullNetwork
| m_server_get
| m_client_get.

Global Instance NetworkPtr_eq_dec : EqDecision NetworkPtr.
Proof. solve_decision. Defined.

(** Storage class of the pointee: [SNullNetwork] is defined at file scope,
    the other two objects come in through [injectDependencies]. *)
Definition moduleLevel (n : NetworkPtr) : bool :=
  match n with
  | SNullNetwork => true
  | m_server_get | m_client_get => false
  end.

Inductive NetworkRole : Type := Disabled | ServerRole | ClientRole.

(** ** Physics scene and systems *)

(** Modelled from the spec: the engine side of [PScene], the global pose
    of every rigid actor. *)
Record PScene : Type := mkPScene { m_actors : gmap nat PxTransform }.

(** [PxRigidActor::getGlobalPose()] through a [PxRigidActor*]. *)
Definition getGlobalPose (scene : PScene) (actor : nat) : option PxTransform :=
  m_actors scene !! actor.

(** [PhysicsSystem]: the tracked entities ([System::m_entities]), iterated
    as id/pointer pairs. *)
Record PhysicsSystem : Type :=
  mkPhysicsSystem { m_entities : list (EntityID * EntityPtr) }.

(** Modelled from the spec: [SystemManager], the systems in registration
    order. *)
Record SystemManager : Type :=
  mkSystemManager { m_systems : list PhysicsSystem }.

(** Presentation state behind [Environment]; opaque to the core. *)
Inductive Environment : Type := EnvironmentState (s : nat).

(** ** The World *)

(** The members of an initialised [World] that the modelled code reads or
    writes. *)
Record World : Type := mkWorld {
  m_environment : Environment;
  m_PScene : PScene;
  m_usePhysics : bool;
  m_network : NetworkPtr;
  m_server : Server.t;
  m_client : Client.t;
  m_entityPool : EntityPool;
  m_entityIDMap : gmap EntityID EntityPtr;
  m_componentFactory : ComponentFactory;
  m_systemManager : SystemManager;
  m_player : EntityPtr;
  m_hasPlayer : bool;
  m_mainCameraC : option nat
}.

Definition set_environment (x : Environment) (w : World) : World :=
  mkWorld x (m_PScene w) (m_usePhysics w) (m_network w) (m_server w)
    (m_client w) (m_entityPool w) (m_entityIDMap w) (m_componentFactory w)
    (m_systemManager w) (m_player w) (m_hasPlayer w) (m_mainCameraC w).
Definition set_PScene (x : PScene) (w : World) : World :=
  mkWorld (m_environment w) x (m_usePhysics w) (m_network w) (m_server w)
    (m_client w) (m_entityPool w) (m_entityIDMap w) (m_componentFactory w)
    (m_systemManager w) (m_player w) (m_hasPlayer w) (m_mainCameraC w).
Definition set_network (x : NetworkPtr) (w : World) : World :=
  mkWorld (m_environment w) (m_PScene w) (m_usePhysics w) x (m_server w)
    (m_client w) (m_entityPool w) (m_entityIDMap w) (m_componentFactory w)
    (m_systemManager w) (m_player w) (m_hasPlayer w) (m_mainCameraC w).
Definition set_server (x : Server.t) (w : World) : World :=
  mkWorld (m_environment w) (m_PScene w) (m_usePhysics w) (m_network w) x
    (m_client w) (m_entityPool w) (m_entityIDMap w) (m_componentFactory w)
    (m_systemManager w) (m_player w) (m_hasPlayer w) (m_mainCameraC w).
Definition set_client (x : Client.t) (w : World) : World :=
  mkWorld (m_environment w) (m_PScene w) (m_usePhysics w) (m_network w)
    (m_server w) x (m_entityPool w) (m_entityIDMap w) (m_componentFactory w)
    (m_systemManager w) (m_player w) (m_hasPlayer w) (m_mainCameraC w).
Definition set_entityPool (x : EntityPool) (w : World) : World :=
  mkWorld (m_environment w) (m_PScene w) (m_usePhysics w) (m_network w)
    (m_server w) (m_client w) x (m_entityIDMap w) (m_componentFactory w)
    (m_systemManager w) (m_player w) (m_hasPlayer w) (m_mainCameraC w).
Definition set_entityIDMap (x : gmap EntityID EntityPtr) (w : World) : World :=
  mkWorld (m_environment w) (m_PScene w) (m_usePhysics w) (m_network w)
    (m_server w) (m_client w) (m_entityPool w) x (m_componentFactory w)
    (m_systemManager w) (m_player w) (m_hasPlayer w) (m_mainCameraC w).
Definition set_componentFactory (x : ComponentFactory) (w : World) : World :=
  mkWorld (m_environment w) (m_PScene w) (m_usePhysics w) (m_network w)
    (m_server w) (m_client w) (m_entityPool w) (m_entityIDMap w) x
    (m_systemManager w) (m_player w) (m_hasPlayer w) (m_mainCameraC w).
Definition set_systemManager (x : SystemManager) (w : World) : World :=
  mkWorld (m_environment w) (m_PScene w) (m_usePhysics w) (m_network w)
    (m_server w) (m_client w) (m_entityPool w) (m_entityIDMap w)
    (m_componentFactory w) x (m_player w) (m_hasPlayer w) (m_mainCameraC w).
Definition set_player (pl : EntityPtr) (cam : option nat) (w : World) : World :=
  mkWorld (m_environment w) (m_PScene w) (m_usePhysics w) (m_network w)
    (m_server w) (m_client w) (m_entityPool w) (m_entityIDMap w)
    (m_componentFactory w) (m_systemManager w) pl true cam.

(** [*e] for an [EntityPtr] into this world's pool. *)
Definition entityAt (w : World) (e : EntityPtr) : option Entity :=
  i ← e; m_pool (m_entityPool w) !! i.

(** The slot behind an [EntityPtr], with its index. *)
Definition slotAt (w : World) (e : EntityPtr) : option (nat * Entity) :=
  i ← e; ent ← m_pool (m_entityPool w) !! i; Some (i, ent).

(** [m_entityIDMap[id] = e], [m_entityIDMap.erase(id)] and
    [m_entityPool->destroy(e)] as state changes of the World. *)
Definition insertID (id : EntityID) (e : EntityPtr) (w : World) : World :=
  set_entityIDMap (<[id := e]> (m_entityIDMap w)) w.
Definition eraseID (id : EntityID) (w : World) : World :=
  set_entityIDMap (delete id (m_entityIDMap w)) w.
Definition recycle (e : EntityPtr) (w : World) : World :=
  set_entityPool (EntityPool_destroy e (m_entityPool w)) w.

(** Write through an [EntityPtr]. *)
Definition setEntityAt (e : nat) (ent : Entity) (w : World) : World :=
  set_entityPool {| m_pool := <[e := ent]> (m_pool (m_entityPool w));
                    m_nextID := m_nextID (m_entityPool w) |} w.

(** [m_network->initialized()], dispatched on the pointee. *)
Definition Network_initialized (w : World) : bool :=
  match m_network w with
  | SNullNetwork => NullNetwork.initialized
  | m_server_get => Server.initialized (m_server w)
  | m_client_get => Client.initialized (m_client w)
  end.

(** The role the world is in: the initialised back end behind [m_network],
    if any. *)
Definition World_role (w : World) : NetworkRole :=
  match m_network w with
  | SNullNetwork => Disabled
  | m_server_get =>
      if Server.initialized (m_server w) then ServerRole else Disabled
  | m_client_get =>
      if Client.initialized (m_client w) then ClientRole else Disabled
  end.

(** ** Collaborators whose code lies outside the core

    Virtual methods and engine calls that [World.cpp] invokes and whose
    bodies are not modelled: they are arbitrary total state transformers.
    A component's [init] is handed the whole World. *)
Record Behaviours : Type := mkBehaviours {
  Server_update : World -> World;
  Client_update : World -> World;
  Entity_update : nat -> World -> World;
  PScene_simulate : PScene -> PScene;
  Environment_update : Environment -> Environment;
  Environment_resume : Environment -> Environment;
  Component_init : ComponentKind -> nat -> World -> World
}.

(** The collaborators leave the world's configuration alone: [m_usePhysics]
    is written by [World::initPhysics] only, and the entity pool never
    changes its capacity after construction. *)
Record Behaviours_frame (B : Behaviours) : Prop := mkBehaviours_frame {
  Server_update_usePhysics :
    forall w, m_usePhysics (Server_update B w) = m_usePhysics w;
  Client_update_usePhysics :
    forall w, m_usePhysics (Client_update B w) = m_usePhysics w;
  Entity_update_usePhysics :
    forall i w, m_usePhysics (Entity_update B i w) = m_usePhysics w;
  Server_update_poolSize :
    forall w, m_poolSize (m_entityPool (Server_update B w))
              = m_poolSize (m_entityPool w);
  Client_update_poolSize :
    forall w, m_poolSize (m_entityPool (Client_update B w))
              = m_poolSize (m_entityPool w);
  Entity_update_poolSize :
    forall i w, m_poolSize (m_entityPool (Entity_update B i w))
                = m_poolSize (m_entityPool w)
}.

(** ** Calls made by the World, and programs that record them *)

Inductive Call : Type :=
| Network_update_call
| SystemManager_update_call
| Entity_update_call (i : nat)
| PScene_simulate_call
| Environment_update_call
| Environment_resume_call
| EntityPool_create_call
| EntityPool_destroy_call (e : EntityPtr)
| EntityIDMap_insert_call (id : EntityID) (e : EntityPtr)
| EntityIDMap_erase_call (id : EntityID)
| ComponentFactory_create_call (k : ComponentKind)
| Component_init_call (k : ComponentKind) (c : nat)
| Entity_attachComponent_call (e : EntityPtr) (k : ComponentKind) (c : nat)
| Network_init_call (n : NetworkPtr)
| Network_destroy_call (n : NetworkPtr)
| SystemManager_addSystem_call
| SystemManager_addEntity_call (e : EntityPtr).

(** A member function of [World]: from the state before the call to the
    calls it made, in order, and either its result with the state after,
    or the fault that ended it. *)
Definition Prog (A : Type) : Type := World -> list Call * Outcome (A * World).

Definition Prog_ret {A : Type} (a : A) : Prog A :=
  fun w => ([], Returns (a, w)).

Definition Prog_bind {A B : Type} (m : Prog A) (k : A -> Prog B) : Prog B :=
  fun w =>
    match m w with
    | (calls, Returns (a, w')) =>
        let '(calls', r) := k a w' in (calls ++ calls', r)
    | (calls, Faults f) => (calls, Faults f)
    end.

(** A call to a collaborator: recorded, then run. *)
Definition call {A : Type} (c : Call) (f : World -> Outcome (A * World))
  : Prog A :=
  fun w => ([c], f w).

(** A step of the function's own body that cannot be observed from outside
    the World. *)
Definition step {A : Type} (f : World -> Outcome A) : Prog A :=
  fun w => ([], Outcome_bind (f w) (fun a => Returns (a, w))).

(** An assignment to a member of the World. *)
Definition assign (f : World -> World) : Prog unit :=
  fun w => ([], Returns (tt, f w)).

(** Modelled from the spec: [Assert(cond, msg)], a guard whose failure is
    fatal. *)
Definition Assert (cond : World -> bool) (msg : string) : Prog unit :=
  step (fun w => if cond w then Returns tt else Faults (AssertFailure msg)).

(** A loop that tests its condition before every iteration: [step] either
    goes on with the next loop state or leaves the loop.  [boundedLoop d]
    makes up to [2 ^ d] tests and stops at the first one that leaves; a
    loop that is still running after [2 ^ d] tests is cut off there, with
    the loop state it has reached. *)
Fixpoint boundedLoop {St Res : Type} (d : nat) (step : St -> St + Res)
    (s : St) : St + Res :=
  match d with
  | 0 => step s
  | S d' =>
      match boundedLoop d' step s with
      | inl s' => boundedLoop d' step s'
      | inr r => inr r
      end
  end.

(** The same loop, test by test. *)
Fixpoint loopRun {St Res : Type} (n : nat) (step : St -> St + Res)
    (s : St) : St + Res :=
  match n with
  | 0 => inl s
  | S n' =>
      match step s with
      | inl s' => loopRun n' step s'
      | inr r => inr r
      end
  end.

(** The number of tests an [int] counter allows, and the largest [int]. *)
Definition INT_LIMIT : nat := 2 ^ 31.
Definition INT_MAX : Z := 2147483647.

Global Instance Outcome_ret : MRet Outcome := @Returns.
Global Instance Outcome_mbind : MBind Outcome :=
  fun A B k o => Outcome_bind o k.
Global Instance Prog_mret : MRet Prog := @Prog_ret.
Global Instance Prog_mbind : MBind Prog := fun A B k m => Prog_bind m k.

(** ** Member functions of [World] *)

Section WorldOperations.

Variable B : Behaviours.

(** [m_network->update()], dispatched on the pointee. *)
Definition Network_update (w : World) : World :=
  match m_network w with
  | SNullNetwork => NullNetwork.noop w
  | m_server_get => Server_update B w
  | m_client_get => Client_update B w
  end.

(** [sceneC->setPosition(...); sceneC->setOrientation(...)] on the scene
    component behind a non-null [SceneComponentPtr]. *)
Definition writeScene (sceneC : nat) (transform : PxTransform) (w : World)
  : Outcome World :=
  sc ← deref (Pool_get (m_scenePool (m_componentFactory w)) sceneC);
  let sc1 := setPosition (v_x (p transform)) (v_y (p transform))
               (v_z (p transform)) sc in
  let sc2 := setOrientation (q_w (q transform)) (q_x (q transform))
               (q_y (q transform)) (q_z (q transform)) sc1 in
  let f := m_componentFactory w in
  mret (set_componentFactory
          (mkComponentFactory (m_actorPool f) (m_cameraPool f)
             (m_lightPool f) (m_modelPool f) (m_physicsPool f)
             (Pool_set (m_scenePool f) sceneC sc2)) w).

(** The body of the loop of [PhysicsSystem::update] for one tracked
    entry [i]; [e] is [i.second]. *)
Definition PhysicsSystem_updateEntity (e : EntityPtr) (w : World)
  : Outcome World :=
  ent ← deref (entityAt w e);
  let physicsC := getComponent Physics ent in
  let sceneC := getComponent Scene ent in
  pc ← deref (c ← physicsC;
              Pool_get (m_physicsPool (m_componentFactory w)) c);
  actor ← deref (m_rigidActor pc);
  transform ← deref (getGlobalPose (m_PScene w) actor);
  sc ← deref sceneC;
  writeScene sc transform w.

(** [PhysicsSystem::update]: [for (auto& i : m_entities) ...]. *)
Fixpoint PhysicsSystem_updateLoop (tracked : list (EntityID * EntityPtr))
    (w : World) : Outcome World :=
  match tracked with
  | [] => mret w
  | i :: rest =>
      w' ← PhysicsSystem_updateEntity (snd i) w;
      PhysicsSystem_updateLoop rest w'
  end.

Definition PhysicsSystem_update (sys : PhysicsSystem) (w : World)
  : Outcome World :=
  PhysicsSystem_updateLoop (m_entities sys) w.

(** Modelled from the spec: [SystemManager::update] invokes each system's
    update in registration order. *)
Fixpoint SystemManager_updateLoop (systems : list PhysicsSystem) (w : World)
  : Outcome World :=
  match systems with
  | [] => mret w
  | sys :: rest =>
      w' ← PhysicsSystem_update sys w;
      SystemManager_updateLoop rest w'
  end.

Definition SystemManager_update (w : World) : Outcome World :=
  SystemManager_updateLoop (m_systems (m_systemManager w)) w.

(** Modelled from the spec: [SystemManager::addEntity] offers the entity
    to every registered system; the physics system keeps it when it
    carries a physics and a scene component. *)
Definition PhysicsSystem_attachEntity (e : EntityPtr) (ent : Entity)
    (sys : PhysicsSystem) : PhysicsSystem :=
  match getComponent Physics ent, getComponent Scene ent with
  | Some _, Some _ =>
      {| m_entities := m_entities sys ++ [(m_id ent, e)] |}
  | _, _ => sys
  end.

Definition SystemManager_addEntity (e : EntityPtr) (w : World)
  : Outcome World :=
  ent ← deref (entityAt w e);
  mret (set_systemManager
          {| m_systems := PhysicsSystem_attachEntity e ent
                            <$> m_systems (m_systemManager w) |} w).

(** The physics step and the environment step of [World::update]. *)
Definition simulate (w : World) : World :=
  set_PScene (PScene_simulate B (m_PScene w)) w.
Definition updateEnvironment (w : World) : World :=
  set_environment (Environment_update B (m_environment w)) w.

(** The state after [m_pool[i].update(this)] for each [i] of [items], in
    that order. *)
Definition updateEntities (items : list nat) (w : World) : World :=
  foldl (fun w' i => Entity_update B i w') w items.


(** One test of [for (int i = 0; i < m_entityPool->m_poolSize; ++i)
    m_entityPool->m_pool[i].update(this)]: the bound is read from the
    current state before every iteration. *)
Definition entityLoopStep (s : nat * World) : (nat * World) + (nat * World) :=
  let '(i, w) := s in
  if decide (i < m_poolSize (m_entityPool w))
  then inl (S i, Entity_update B i w)
  else inr (i, w).

(** The loop over the pool: the number of iterations made and the state
    they leave.  The counter is an [int], compared with a capacity that is
    an [int]: the test fails at [INT_MAX] at the latest, the [2 ^ 31]st
    test.  Only a pool with more slots than an [int] can count, which the
    list of slots does not exclude, is cut off. *)
Definition entityLoop (w : World) : nat * World :=
  match boundedLoop 31 entityLoopStep (0, w) with
  | inl s => s
  | inr s => s
  end.

(** The loop as a phase of the frame: iteration [i] is the call of
    [m_pool[i].update]. *)
Definition World_update_entities : Prog unit :=
  fun w =>
    let '(n, w') := entityLoop w in
    (Entity_update_call <$> seq 0 n, Returns (tt, w')).

(** [World::update]. *)
Definition World_update : Prog unit :=
  call Network_update_call (fun w => mret (tt, Network_update w)) ;;
  call SystemManager_update_call
    (fun w => w' ← SystemManager_update w; mret (tt, w')) ;;
  World_update_entities ;;
  usePhysics ← step (fun w => mret (m_usePhysics w)) ;
  (if usePhysics : bool
   then call PScene_simulate_call (fun w => mret (tt, simulate w))
   else mret tt) ;;
  call Environment_update_call (fun w => mret (tt, updateEnvironment w)).

(** [World::createEntity]. *)
Definition World_createEntity : Prog EntityPtr :=
  e ← call EntityPool_create_call
        (fun w => let '(e, pool) := EntityPool_create (m_entityPool w) in
                  mret (e, set_entityPool pool w)) ;
  ent ← step (fun w => deref (entityAt w e)) ;
  call (EntityIDMap_insert_call (m_id ent) e)
    (fun w => mret (tt, insertID (m_id ent) e w)) ;;
  mret e.

(** [World::destroyEntity]. *)
Definition World_destroyEntity (e : EntityPtr) : Prog unit :=
  ent ← step (fun w => deref (entityAt w e)) ;
  call (EntityIDMap_erase_call (m_id ent))
    (fun w => mret (tt, eraseID (m_id ent) w)) ;;
  call (EntityPool_destroy_call e)
    (fun w => mret (tt, recycle e w)).

(** [World::getEntityPtr]. *)
Definition World_getEntityPtr (id : EntityID) (w : World) : EntityPtr :=
  match m_entityIDMap w !! id with
  | Some e => e
  | None => None
  end.

(** [m_network->init(port, username)], dispatched on the pointee; only the
    server implements this overload. *)
Definition Network_init_server (port : Z) (name : string) (w : World)
  : World :=
  match m_network w with
  | m_server_get => set_server (Server.init port name (m_server w)) w
  | SNullNetwork | m_client_get => NullNetwork.noop w
  end.

(** [m_network->init()], dispatched on the pointee; only the client
    implements this overload. *)
Definition Network_init_client (w : World) : World :=
  match m_network w with
  | m_client_get => set_client (Client.init (m_client w)) w
  | SNullNetwork | m_server_get => NullNetwork.noop w
  end.

(** [m_network->destroy()], dispatched on the pointee. *)
Definition Network_destroy (w : World) : World :=
  match m_network w with
  | SNullNetwork => NullNetwork.noop w
  | m_server_get => set_server (Server.destroy (m_server w)) w
  | m_client_get => set_client (Client.destroy (m_client w)) w
  end.

(** [World::initServer]. *)
Definition World_initServer (port : Z) (name : string) : Prog unit :=
  Assert (fun w => negb (Network_initialized w))
    "Trying to init Server with Network already initialized" ;;
  assign (set_network m_server_get) ;;
  call (Network_init_call m_server_get)
    (fun w => mret (tt, Network_init_server port name w)).

(** [World::destroyServer]. *)
Definition World_destroyServer : Prog unit :=
  n ← step (fun w => mret (m_network w)) ;
  call (Network_destroy_call n) (fun w => mret (tt, Network_destroy w)) ;;
  assign (set_network SNullNetwork).

(** [World::initClient]. *)
Definition World_initClient : Prog unit :=
  Assert (fun w => negb (Network_initialized w))
    "Trying to init Client with Network already initialized" ;;
  assign (set_network m_client_get) ;;
  call (Network_init_call m_client_get)
    (fun w => mret (tt, Network_init_client w)).

(** [World::destroyClient]. *)
Definition World_destroyClient : Prog unit :=
  n ← step (fun w => mret (m_network w)) ;
  call (Network_destroy_call n) (fun w => mret (tt, Network_destroy w)) ;;
  assign (set_network SNullNetwork).

(** [World::resume]: the camera hand-over, the environment, then the
    network pointer falls back to [SNullNetwork] when its back end is
    not initialised. *)
Definition World_resume : Prog unit :=
  step (fun w => deref (m_mainCameraC w)) ;;
  call Environment_resume_call
    (fun w => mret (tt, set_environment
                          (Environment_resume B (m_environment w)) w)) ;;
  assign (fun w => if Network_initialized w then w
                   else set_network SNullNetwork w).

(** The primary template of [World::attachComponent<T>], used for every
    [T] without a specialisation. *)
Definition World_attachComponent_primary (e : EntityPtr)
  : Prog (option nat) :=
  mret None.

(** The factory call of each specialisation:
    [m_componentFactory->create<Kind>Component()]. *)
Definition ComponentFactory_create (k : ComponentKind)
    (f : ComponentFactory) : option nat * ComponentFactory :=
  match k with
  | Actor => createActorComponent f
  | Camera => createCameraComponent f
  | Light => createLightComponent f
  | Model => createModelComponent f
  | Physics => createPhysicsComponent f
  | Scene => createSceneComponent f
  end.

(** [component->init] on the World. *)
Definition initialise (k : ComponentKind) (c : nat) (w : World) : World :=
  Component_init B k c w.

(** [m_componentFactory->create<Kind>Component()] on the World. *)
Definition allocate (k : ComponentKind) (w : World) : option nat * World :=
  let '(c, f) := ComponentFactory_create k (m_componentFactory w) in
  (c, set_componentFactory f w).

(** [initComponent(component, entity, world)]. *)
Definition initComponent (k : ComponentKind) (component : option nat)
    (e : EntityPtr) : Prog unit :=
  c ← step (fun _ => deref component) ;
  call (Component_init_call k c)
    (fun w => mret (tt, initialise k c w)) ;;
  slot ← step (fun w => deref (slotAt w e)) ;
  call (Entity_attachComponent_call e k c)
    (fun w => mret (tt, setEntityAt (fst slot)
                          (Entity_attachComponent k c (snd slot)) w)).

(** The specialisations of [World::attachComponent<Kind>]. *)
Definition World_attachComponent (k : ComponentKind) (e : EntityPtr)
  : Prog (option nat) :=
  c ← call (ComponentFactory_create_call k)
        (fun w => mret (allocate k w)) ;
  initComponent k c e ;;
  mret c.

(** [World::addSystem]; modelled from the spec: [SystemManager::addSystem]
    keeps the order of registration. *)
Definition World_addSystem (sys : PhysicsSystem) : Prog unit :=
  call SystemManager_addSystem_call
    (fun w => mret (tt, set_systemManager
                          {| m_systems := m_systems (m_systemManager w)
                                          ++ [sys] |} w)).

(** [World::addEntityToSystem]. *)
Definition World_addEntityToSystem (e : EntityPtr) : Prog unit :=
  call (SystemManager_addEntity_call e)
    (fun w => w' ← SystemManager_addEntity e w; mret (tt, w')).

(** [World::setPlayer]. *)
Definition World_setPlayer (player : EntityPtr) : Prog unit :=
  ent ← step (fun w => deref (entityAt w player)) ;
  assign (set_player player (getComponent Camera ent)).

(** [MoveBackwardCommand::execute]. *)
Definition MoveBackwardCommand_execute (e : EntityPtr) (w : World)
  : Outcome World :=
  ent ← deref (entityAt w e);
  actor ← deref (getComponent Actor ent);
  a ← deref (Pool_get (m_actorPool (m_componentFactory w)) actor);
  let f := m_componentFactory w in
  mret (set_componentFactory
          (mkComponentFactory
             (Pool_set (m_actorPool f) actor (setMovingBackward true a))
             (m_cameraPool f) (m_lightPool f) (m_modelPool f)
             (m_physicsPool f) (m_scenePool f)) w).

(** [MoveBackwardCommand::unexecute]. *)
Definition MoveBackwardCommand_unexecute (e : EntityPtr) (w : World)
  : Outcome World :=
  ent ← deref (entityAt w e);
  actor ← deref (getComponent Actor ent);
  a ← deref (Pool_get (m_actorPool (m_componentFactory w)) actor);
  let f := m_componentFactory w in
  mret (set_componentFactory
          (mkComponentFactory
             (Pool_set (m_actorPool f) actor (setMovingBackward false a))
             (m_cameraPool f) (m_lightPool f) (m_modelPool f)
             (m_physicsPool f) (m_scenePool f)) w).

End WorldOperations.

(** [World::injectDependencies]: the two network back ends handed to the
    World. *)
Record Dependencies : Type := mkDependencies {
  server : Server.t;
  client : Client.t
}.

(** Modelled from the spec: [EntityPool(size)], [size] free slots. *)
Definition EntityPool_new (size : nat) : EntityPool :=
  {| m_pool := replicate size (mkEntity 0 false (fun _ => None));
     m_nextID := 0 |}.

(** [World::init(usePhysics)] on a freshly constructed World after
    [injectDependencies(deps)]; [env] and [factory] are the environment and
    the component pools as their own [init] leaves them. *)
Definition World_init (deps : Dependencies) (env : Environment)
    (factory : ComponentFactory) (usePhysics : bool) : World :=
  {| m_environment := env;
     m_PScene := mkPScene ∅;
     m_usePhysics := usePhysics;
     m_network :=
       if Server.initialized (server deps) then m_server_get
       else if Client.initialized (client deps) then m_client_get
       else SNullNetwork;
     m_server := server deps;
     m_client := client deps;
     m_entityPool := EntityPool_new 256;
     m_entityIDMap := ∅;
     m_componentFactory := factory;
     m_systemManager := mkSystemManager [];
     m_player := None;
     m_hasPlayer := false;
     m_mainCameraC := None |}.


(** ** Observations used in the statements *)

(** The moving-backward flag of the actor component of [e], when [e] holds
    one. *)
Definition movingBackward (w : World) (e : EntityPtr) : option bool :=
  ent ← entityAt w e;
  actor ← getComponent Actor ent;
  a ← Pool_get (m_actorPool (m_componentFactory w)) actor;
  Some (m_movingBackward a).

(** The state a program leaves behind; the state it started from when it
    faulted. *)
Definition stateAfter {A : Type} (m : Prog A) (w : World) : World :=
  match m w with
  | (_, Returns (_, w')) => w'
  | (_, Faults _) => w
  end.

(** The pose the engine reports for the rigid actor of [e]. *)
Definition enginePose (w : World) (e : EntityPtr) : option PxTransform :=
  ent ← entityAt w e;
  c ← getComponent Physics ent;
  pc ← Pool_get (m_physicsPool (m_componentFactory w)) c;
  actor ← m_rigidActor pc;
  getGlobalPose (m_PScene w) actor.

(** The scene component of [e], as a pointer into the scene pool. *)
Definition sceneOf (w : World) (e : EntityPtr) : option nat :=
  ent ← entityAt w e;
  sc ← getComponent Scene ent;
  _ ← Pool_get (m_scenePool (m_componentFactory w)) sc;
  Some sc.

(** Position and orientation held by the scene component of [e]. *)
Definition scenePose (w : World) (e : EntityPtr)
  : option (Vector3 * Quaternion) :=
  sc ← sceneOf w e;
  s ← Pool_get (m_scenePool (m_componentFactory w)) sc;
  Some (m_position s, m_orientation s).

(** A transform, float by float, as position and orientation. *)
Definition poseOf (t : PxTransform) : Vector3 * Quaternion :=
  (mkVector3 (v_x (p t)) (v_y (p t)) (v_z (p t)),
   mkQuaternion (q_w (q t)) (q_x (q t)) (q_y (q t)) (q_z (q t))).

(** The scene component [s] after [setPosition] and [setOrientation] with
    the fields of [t]. *)
Definition copyPose (t : PxTransform) (s : SceneComponent) : SceneComponent :=
  setOrientation (q_w (q t)) (q_x (q t)) (q_y (q t)) (q_z (q t))
    (setPosition (v_x (p t)) (v_y (p t)) (v_z (p t)) s).

(** What [PhysicsSystem::update] needs from a tracked entity: the pose to
    copy and the scene component to copy it to. *)
Definition poseAndScene (w : World) (e : EntityPtr)
  : option (PxTransform * nat) :=
  t ← enginePose w e; sc ← sceneOf w e; Some (t, sc).

(** All entries tracked by the registered systems, in update order. *)
Definition trackedEntries (w : World) : list (EntityID * EntityPtr) :=
  m_systems (m_systemManager w) ≫= m_entities.

(** A scene component belongs to one entity. *)
Definition owns (w : World) (tracked : list (EntityID * EntityPtr)) : Prop :=
  forall e1 e2 sc,
    e1 ∈ tracked.*2 -> e2 ∈ tracked.*2 ->
    sceneOf w e1 = Some sc -> sceneOf w e2 = Some sc -> e1 = e2.

Definition sceneOwnership (w : World) : Prop := owns w (trackedEntries w).

(** The network and the entities have nothing to do in this frame. *)
Definition quietFrame (B : Behaviours) : Prop :=
  (forall w, Server_update B w = w) /\
  (forall w, Client_update B w = w) /\
  (forall i w, Entity_update B i w = w).



(** ** The scan, the tracked sets and the pose, as predicates *)




(** Every tracked entry points to a live entity. *)
Definition trackedLive (w : World) : Prop :=
  forall id e, (id, e) ∈ trackedEntries w ->
    exists i, e = Some i /\ isLive (m_entityPool w) i = true.

(** The systems survive entities that were destroyed after registration:
    their update returns and no longer tracks them. *)
Definition toleratesDestroyed (w : World) : Prop :=
  exists w', SystemManager_update w = Returns w' /\ trackedLive w'.

(** After a frame the scene component of every tracked entity holds the
    pose the engine reports after that frame's physics step. *)
Definition sceneFollowsPhysics (B : Behaviours) (w : World) : Prop :=
  forall w' id e,
    snd (World_update B w) = Returns (tt, w') ->
    (id, e) ∈ trackedEntries w ->
    scenePose w' e = poseOf <$> enginePose w' e.

(** The five phases of a frame, as calls: network, system manager, every
    slot of the pool in order, the physics step when physics is enabled,
    the environment. *)
Definition World_update_phases (w : World) : list Call :=
  [Network_update_call; SystemManager_update_call]
  ++ (Entity_update_call <$> seq 0 (m_poolSize (m_entityPool w)))
  ++ (if m_usePhysics w then [PScene_simulate_call] else [])
  ++ [Environment_update_call].

(** [w] with the pool of scene components replaced. *)
Definition withScenePool (pool : Pool SceneComponent) (w : World) : World :=
  let f := m_componentFactory w in
  set_componentFactory
    (mkComponentFactory (m_actorPool f) (m_cameraPool f) (m_lightPool f)
       (m_modelPool f) (m_physicsPool f) pool) w.

(** Every slot below [n] passed the test of the loop over the pool: it lay
    below the capacity of the pool in the state its update started from. *)
Definition testsPassed (B : Behaviours) (w : World) (n : nat) : Prop :=
  Forall (fun k => k < m_poolSize
                         (m_entityPool (updateEntities B (seq 0 k) w)))
    (seq 0 n).

(** The frame runs its five phases, every one of them, and returns. *)
Definition runsFivePhases (B : Behaviours) (w : World) : Prop :=
  exists w', World_update B w = (World_update_phases w, Returns (tt, w')).

(** The entity updates keep the capacity of the pool. *)
Definition capacityKept (B : Behaviours) : Prop :=
  forall i w, m_poolSize (m_entityPool (Entity_update B i w))
              = m_poolSize (m_entityPool w).



(** A component's [init] works on components and the physics scene: it
    leaves the entities, the ID map, the systems and the network alone. *)
Definition initKeepsEntities (B : Behaviours) : Prop :=
  forall k c w,
    m_entityPool (Component_init B k c w) = m_entityPool w /\
    m_entityIDMap (Component_init B k c w) = m_entityIDMap w /\
    m_systemManager (Component_init B k c w) = m_systemManager w /\
    m_network (Component_init B k c w) = m_network w.

(** ** Example worlds *)

(** Collaborators that do nothing. *)
Definition idleBehaviours : Behaviours :=
  {| Server_update := fun w => w;
     Client_update := fun w => w;
     Entity_update := fun _ w => w;
     PScene_simulate := fun s => s;
     Environment_update := fun env => env;
     Environment_resume := fun env => env;
     Component_init := fun _ _ w => w |}.

(** Component pools of capacity two. *)
Definition smallFactory : ComponentFactory :=
  {| m_actorPool := replicate 2 (mkSlot false (mkActorComponent false));
     m_cameraPool := replicate 2 (mkSlot false (mkCameraComponent 0));
     m_lightPool := replicate 2 (mkSlot false (mkLightComponent 0));
     m_modelPool := replicate 2 (mkSlot false (mkModelComponent 0));
     m_physicsPool := replicate 2 (mkSlot false (mkPhysicsComponent None));
     m_scenePool :=
       replicate 2 (mkSlot false
                      (mkSceneComponent (mkVector3 0 0 0)
                         (mkQuaternion 0 0 0 0))%Z) |}.

Definition offlineDeps : Dependencies :=
  {| server := Server.mk false None ∅; client := Client.mk false |}.

(** A world right after [init(true)], no network back end running. *)
Definition freshWorld : World :=
  World_init offlineDeps (EnvironmentState 0) smallFactory true.

(** One entity, in slot 0, with an actor component. *)
Definition actorWorld : World :=
  stateAfter (World_attachComponent idleBehaviours Actor (Some 0))
    (stateAfter World_createEntity freshWorld).

(** One entity, in slot 0, without components. *)
Definition loneWorld : World := stateAfter World_createEntity freshWorld.



Definition restPose : PxTransform :=
  (mkPxTransform (mkQuaternion 1 0 0 0) (mkVector3 0 10 0))%Z.

(** One step of free fall in the example engine. *)
Definition fall (t : PxTransform) : PxTransform :=
  mkPxTransform (q t)
    (mkVector3 (v_x (p t)) (v_y (p t) - 1)%Z (v_z (p t))).

(** A physics component's [init] creates its rigid actor at [restPose];
    [simulate] lets every actor fall. *)
Definition fallingBehaviours : Behaviours :=
  {| Server_update := fun w => w;
     Client_update := fun w => w;
     Entity_update := fun _ w => w;
     PScene_simulate := fun s => mkPScene (fall <$> m_actors s);
     Environment_update := fun env => env;
     Environment_resume := fun env => env;
     Component_init :=
       fun k c w =>
         let f := m_componentFactory w in
         match k with
         | Physics =>
             set_PScene
               (mkPScene (<[c := restPose]> (m_actors (m_PScene w))))
               (set_componentFactory
                  (mkComponentFactory (m_actorPool f) (m_cameraPool f)
                     (m_lightPool f) (m_modelPool f)
                     (Pool_set (m_physicsPool f) c
                        (mkPhysicsComponent (Some c)))
                     (m_scenePool f)) w)
         | _ => w
         end |}.

(** A physics system tracking one entity (slot 0) that carries a physics
    and a scene component. *)
Definition physicsWorld : World :=
  stateAfter (World_addEntityToSystem (Some 0))
    (stateAfter (World_attachComponent fallingBehaviours Scene (Some 0))
       (stateAfter (World_attachComponent fallingBehaviours Physics (Some 0))
          (stateAfter World_createEntity
             (stateAfter (World_addSystem (mkPhysicsSystem []))
                freshWorld)))).

(** [physicsWorld] after [destroyEntity] of its entity. *)
Definition orphanWorld : World :=
  stateAfter (World_destroyEntity (Some 0)) physicsWorld.

(** The pool of [freshWorld] filled up by 256 calls of [createEntity]. *)
Definition fullWorld : World :=
  Nat.iter 256 (stateAfter World_createEntity) freshWorld.

(** [freshWorld] with the server running. *)
Definition serverWorld : World :=
  stateAfter (World_initServer 7777 "host") freshWorld.



(** ** Exhaustion and agreement of the ID map, as predicates *)

(** [createEntity] either hands out a slot that was free, or passes the
    pool's failure on to its caller as a null handle. *)
Definition createEntity_checked (w : World) : Prop :=
  (exists i w', snd (World_createEntity w) = Returns (Some i, w') /\
                isLive (m_entityPool w) i = false) \/
  (exists w', snd (World_createEntity w) = Returns (None, w')).

(** The ID map and the live slots of the pool describe the same entities. *)
Definition idMapAgrees (w : World) : Prop :=
  forall (id : EntityID) (e : EntityPtr),
    m_entityIDMap w !! id = Some e <->
    exists i ent, e = Some i /\ m_pool (m_entityPool w) !! i = Some ent /\
                  m_alive ent = true /\ m_id ent = id.

(** Identities handed out so far lie below the pool's counter. *)
Definition idsBelowCounter (pool : EntityPool) : Prop :=
  forall i ent, m_pool pool !! i = Some ent -> m_alive ent = true ->
                m_id ent < m_nextID pool.

Definition World_consistent (w : World) : Prop :=
  idMapAgrees w /\ idsBelowCounter (m_entityPool w).



(** ** Further observations *)

(** An initialised back end is the one behind [m_network]. *)
Definition network_coherent (w : World) : Prop :=
  (Server.initialized (m_server w) = true -> m_network w = m_server_get) /\
  (Client.initialized (m_client w) = true -> m_network w = m_client_get).

(** Both back ends up at the moment of injection. *)
Definition bothDeps : Dependencies :=
  {| server := Server.mk true None ∅; client := Client.mk true |}.

(** One entity, in slot 0, with a camera, made the player. *)
Definition playerWorld : World :=
  stateAfter (World_setPlayer (Some 0))
    (stateAfter (World_attachComponent idleBehaviours Camera (Some 0))
       loneWorld).

(** The number of live slots of a pool. *)
Fixpoint countLive (slots : list Entity) : nat :=
  match slots with
  | [] => 0
  | ent :: rest => (if m_alive ent then 1 else 0) + countLive rest
  end.

Definition liveCount (w : World) : nat :=
  countLive (m_pool (m_entityPool w)).

(** The scene component that [setPosition] and [setOrientation] with the
    fields of [t] leave behind, whatever it held before. *)
Definition sceneFrom (t : PxTransform) : SceneComponent :=
  {| m_position := fst (poseOf t); m_orientation := snd (poseOf t) |}.

(** The pose that the last tracked entry writing to scene component [j]
    writes, if any entry does. *)
Fixpoint lastWrite (w : World) (tracked : list (EntityID * EntityPtr))
    (j : nat) : option PxTransform :=
  match tracked with
  | [] => None
  | i :: rest =>
      match lastWrite w rest j with
      | Some t => Some t
      | None =>
          match poseAndScene w (snd i) with
          | Some (t, sc) => if decide (sc = j) then Some t else None
          | None => None
          end
      end
  end.

(** Two entities with physics and scene components, both tracked. *)
Definition twinWorld : World :=
  stateAfter (World_addEntityToSystem (Some 1))
    (stateAfter (World_addEntityToSystem (Some 0))
       (stateAfter (World_attachComponent fallingBehaviours Scene (Some 1))
          (stateAfter
             (World_attachComponent fallingBehaviours Physics (Some 1))
             (stateAfter World_createEntity
                (stateAfter
                   (World_attachComponent fallingBehaviours Scene (Some 0))
                   (stateAfter
                      (World_attachComponent fallingBehaviours Physics
                         (Some 0))
                      (stateAfter World_createEntity
                         (stateAfter (World_addSystem (mkPhysicsSystem []))
                            freshWorld)))))))).

(** The actor component of [e], as a pointer into the actor pool. *)
Definition actorOf (w : World) (e : EntityPtr) : option nat :=
  ent ← entityAt w e; getComponent Actor ent.

(** [w] with the pool of actor components replaced. *)
Definition withActorPool (pool : Pool ActorComponent) (w : World) : World :=
  let f := m_componentFactory w in
  set_componentFactory
    (mkComponentFactory pool (m_cameraPool f) (m_lightPool f)
       (m_modelPool f) (m_physicsPool f) (m_scenePool f)) w.

(** ** Dynamic lines *)

(** [Ogre::RenderOperation::OperationType]. *)
Inductive OperationType : Type :=
| OT_POINT_LIST | OT_LINE_LIST | OT_LINE_STRIP
| OT_TRIANGLE_LIST | OT_TRIANGLE_STRIP | OT_TRIANGLE_FAN.

(** [DynamicLines]: the point list, the dirty flag and the operation type
    of the inherited render operation. *)
Record DynamicLines : Type := mkDynamicLines {
  m_points : list Vector3;
  m_dirty : bool;
  mRenderOp_operationType : OperationType
}.

(** [DynamicLines::getNumPoints]: the size of the list cast to
    [unsigned short], 16 bits wide. *)
Definition getNumPoints (d : DynamicLines) : Z :=
  (Z.of_nat (length (m_points d)) mod 2 ^ 16)%Z.

(** [DynamicLines::getOperationType]. *)
Definition getOperationType (d : DynamicLines) : OperationType :=
  mRenderOp_operationType d.

(** [DynamicLines::setOperationType]. *)
Definition setOperationType (type : OperationType) (d : DynamicLines)
  : DynamicLines :=
  {| m_points := m_points d; m_dirty := m_dirty d;
     mRenderOp_operationType := type |}.

(** Two entities, in slots 0 and 1, each with an actor component. *)
Definition actorPairWorld : World :=
  stateAfter (World_attachComponent idleBehaviours Actor (Some 1))
    (stateAfter World_createEntity actorWorld).

(** * Properties *)

Ltac prog_unfold :=
  unfold mbind, mret, Prog_mbind, Prog_mret, Outcome_mbind, Outcome_ret,
    Assert, Prog_bind, Prog_ret, call, step, assign, Outcome_bind, deref
    in *.

(** ** Pools *)

Lemma Pool_get_set {T : Type} (pool : Pool T) (i : nat) (a v : T) :
  Pool_get pool i = Some a -> Pool_get (Pool_set pool i v) i = Some v.
Proof.
  unfold Pool_get, Pool_set. intros H.
  rewrite list_lookup_alter_eq.
  destruct (pool !! i) as [s|]; [reflexivity | discriminate].
Qed.

Lemma Pool_get_set_ne {T : Type} (pool : Pool T) (i j : nat) (v : T) :
  i <> j -> Pool_get (Pool_set pool i v) j = Pool_get pool j.
Proof.
  unfold Pool_get, Pool_set. intros H. by rewrite list_lookup_alter_ne.
Qed.

Lemma Pool_set_set {T : Type} (pool : Pool T) (i : nat) (v1 v2 : T) :
  Pool_set (Pool_set pool i v1) i v2 = Pool_set pool i v2.
Proof.
  unfold Pool_set. apply list_eq. intros j.
  destruct (decide (i = j)) as [->|Hne].
  - rewrite !list_lookup_alter_eq. by destruct (pool !! j).
  - by rewrite !list_lookup_alter_ne.
Qed.

(** ** The MoveBackward command *)

Lemma movingBackward_inv (w : World) (e : EntityPtr) (b : bool) :
  movingBackward w e = Some b ->
  exists ent actor a,
    entityAt w e = Some ent /\ getComponent Actor ent = Some actor /\
    Pool_get (m_actorPool (m_componentFactory w)) actor = Some a /\
    m_movingBackward a = b.
Proof.
  unfold movingBackward. intros H.
  destruct (entityAt w e) as [ent|] eqn:He; [|discriminate]. simpl in H.
  destruct (getComponent Actor ent) as [actor|] eqn:Hc; [|discriminate].
  simpl in H.
  destruct (Pool_get _ actor) as [a|] eqn:Ha; [|discriminate].
  simpl in H. exists ent, actor, a. repeat split; congruence.
Qed.

(** C10.  For an entity that holds an actor component, [execute] returns and
    leaves the moving-backward flag true, [unexecute] returns and leaves it
    false, whatever the flag was before; running [execute] again changes
    nothing, and [execute] followed by [unexecute] ends in the state
    [unexecute] alone produces, with the flag false. *)
Theorem MoveBackwardCommand_flag (w : World) (e : EntityPtr) (b : bool) :
  movingBackward w e = Some b ->
  exists w1 w2,
    MoveBackwardCommand_execute e w = Returns w1 /\
    movingBackward w1 e = Some true /\
    MoveBackwardCommand_unexecute e w = Returns w2 /\
    movingBackward w2 e = Some false /\
    MoveBackwardCommand_execute e w1 = Returns w1 /\
    MoveBackwardCommand_unexecute e w1 = Returns w2.
Proof.
  intros H. apply movingBackward_inv in H.
  destruct H as (ent & actor & a & He & Hc & Ha & _).
  assert (Hflag : forall v w',
            entityAt w' e = Some ent ->
            Pool_get (m_actorPool (m_componentFactory w')) actor
              = Some (mkActorComponent v) ->
            movingBackward w' e = Some v).
  { intros v w' He' Ha'. unfold movingBackward.
    rewrite He'. simpl. rewrite Hc. simpl. by rewrite Ha'. }
  unfold MoveBackwardCommand_execute, MoveBackwardCommand_unexecute.
  rewrite He. simpl. rewrite Hc. simpl. rewrite Ha. simpl.
  eexists _, _. split; [reflexivity|].
  split; [apply Hflag; [exact He | apply (Pool_get_set _ _ a), Ha]|].
  split; [reflexivity|].
  split; [apply Hflag; [exact He | apply (Pool_get_set _ _ a), Ha]|].
  change (entityAt (set_componentFactory ?f w) e) with (entityAt w e).
  rewrite He. simpl. rewrite Hc. simpl.
  rewrite (Pool_get_set _ _ a _ Ha). simpl.
  rewrite !Pool_set_set. split; reflexivity.
Qed.

Lemma MoveBackwardCommand_flag_witness :
  movingBackward actorWorld (Some 0) = Some false /\
  exists w1 w2,
    MoveBackwardCommand_execute (Some 0) actorWorld = Returns w1 /\
    movingBackward w1 (Some 0) = Some true /\
    MoveBackwardCommand_unexecute (Some 0) actorWorld = Returns w2 /\
    movingBackward w2 (Some 0) = Some false /\
    MoveBackwardCommand_execute (Some 0) w1 = Returns w1 /\
    MoveBackwardCommand_unexecute (Some 0) w1 = Returns w2.
Proof.
  split; [vm_compute; reflexivity|].
  apply (MoveBackwardCommand_flag actorWorld (Some 0) false).
  vm_compute; reflexivity.
Defined.


(** ** Network roles *)

Lemma World_role_initialized (w : World) :
  Network_initialized w = match World_role w with
                          | Disabled => false
                          | ServerRole | ClientRole => true
                          end.
Proof.
  unfold Network_initialized, World_role.
  destruct (m_network w); [reflexivity| |].
  - by destruct (Server.initialized (m_server w)).
  - by destruct (Client.initialized (m_client w)).
Qed.

(** C4.  In a role other than Disabled both [initServer] and [initClient]
    stop at their assertion.  From Disabled, [initServer] succeeds and
    yields the Server role; there [initClient] (and a second [initServer])
    stops at its assertion; [destroyServer] leads back to Disabled, from
    where [initClient] succeeds and yields the Client role. *)
Theorem World_network_transitions (w : World) (port : Z) (name : string) :
  match World_role w with
  | Disabled =>
      exists w1 w2 w3,
        World_initServer port name w
          = ([Network_init_call m_server_get], Returns (tt, w1)) /\
        World_role w1 = ServerRole /\
        World_initClient w1
          = ([], Faults (AssertFailure
               "Trying to init Client with Network already initialized")) /\
        World_initServer port name w1
          = ([], Faults (AssertFailure
               "Trying to init Server with Network already initialized")) /\
        World_destroyServer w1
          = ([Network_destroy_call m_server_get], Returns (tt, w2)) /\
        World_role w2 = Disabled /\
        World_initClient w2
          = ([Network_init_call m_client_get], Returns (tt, w3)) /\
        World_role w3 = ClientRole
  | ServerRole | ClientRole =>
      World_initServer port name w
        = ([], Faults (AssertFailure
             "Trying to init Server with Network already initialized")) /\
      World_initClient w
        = ([], Faults (AssertFailure
             "Trying to init Client with Network already initialized"))
  end.
Proof.
  pose proof (World_role_initialized w) as Hi.
  destruct (World_role w).
  - eexists _, _, _.
    unfold World_initServer, World_initClient, World_destroyServer.
    prog_unfold. cbv beta. rewrite Hi. simpl.
    repeat split; reflexivity.
  - unfold World_initServer, World_initClient. prog_unfold. cbv beta.
    rewrite Hi. split; reflexivity.
  - unfold World_initServer, World_initClient. prog_unfold. cbv beta.
    rewrite Hi. split; reflexivity.
Qed.

Example server_client_round_trip :
  World_role freshWorld = Disabled /\
  World_role
    (stateAfter World_initClient
       (stateAfter World_destroyServer
          (stateAfter (World_initServer 7777 "host") freshWorld)))
  = ClientRole.
Proof. split; reflexivity. Qed.

Example server_then_client_refused :
  World_role serverWorld = ServerRole /\
  snd (World_initClient serverWorld)
    = Faults (AssertFailure
        "Trying to init Client with Network already initialized").
Proof. split; reflexivity. Qed.

(** ** The file-level network default *)

(** C8, as stated, fails: initialised with neither back end running, the
    World uses the object behind the file-level [SNullNetwork]. *)
Lemma World_init_uses_module_level_default :
  ~ (forall deps env factory usePhysics,
       moduleLevel (m_network (World_init deps env factory usePhysics))
         = false).
Proof.
  intros H.
  specialize (H offlineDeps (EnvironmentState 0) smallFactory true).
  discriminate H.
Qed.

(** C8, amended.  The World keeps one current strategy pointer.  [init]
    makes it the file-level [SNullNetwork] exactly when neither injected
    back end is initialised, [destroyServer] and [destroyClient] always
    leave it at [SNullNetwork], and [resume], unless it stops at a null
    camera, resets it to [SNullNetwork] when the back end it points to is
    not initialised. *)
Theorem World_network_default (deps : Dependencies) (env : Environment)
    (factory : ComponentFactory) (usePhysics : bool) (w : World) :
  moduleLevel (m_network (World_init deps env factory usePhysics))
    = negb (Server.initialized (server deps)
            || Client.initialized (client deps)) /\
  (exists w', snd (World_destroyServer w) = Returns (tt, w') /\
              m_network w' = SNullNetwork) /\
  (exists w', snd (World_destroyClient w) = Returns (tt, w') /\
              m_network w' = SNullNetwork) /\
  (forall B,
     match snd (World_resume B w) with
     | Returns (_, w') =>
         m_network w' = if Network_initialized w then m_network w
                        else SNullNetwork
     | Faults f => f = NullDereference /\ m_mainCameraC w = None
     end).
Proof.
  split; [|split; [|split]].
  - unfold World_init. simpl.
    destruct (Server.initialized (server deps)); [reflexivity|].
    by destruct (Client.initialized (client deps)).
  - eexists. split; reflexivity.
  - eexists. split; reflexivity.
  - intros B. unfold World_resume. prog_unfold. simpl.
    destruct (m_mainCameraC w); simpl; [|by split].
    change (Network_initialized (set_environment ?x w))
      with (Network_initialized w).
    by destruct (Network_initialized w).
Qed.

(** ** The entity pool *)

Lemma firstFreeEntity_Some (slots : list Entity) (i : nat) :
  firstFreeEntity slots = Some i ->
  exists ent, slots !! i = Some ent /\ m_alive ent = false.
Proof.
  revert i. induction slots as [|e rest IH]; intros i; simpl; [discriminate|].
  destruct (m_alive e) eqn:Halive.
  - destruct (firstFreeEntity rest) as [j|]; simpl; [|discriminate].
    intros [= <-]. simpl. apply IH. reflexivity.
  - intros [= <-]. exists e. split; [reflexivity | exact Halive].
Qed.

Lemma firstFreeEntity_None (slots : list Entity) :
  firstFreeEntity slots = None ->
  forall i ent, slots !! i = Some ent -> m_alive ent = true.
Proof.
  induction slots as [|e rest IH]; simpl; intros Hnone i ent Hi.
  - discriminate.
  - destruct (m_alive e) eqn:Halive; [|discriminate].
    destruct (firstFreeEntity rest); [discriminate|].
    destruct i as [|i]; simpl in Hi.
    + by injection Hi as <-.
    + by eapply IH.
Qed.

Lemma isLive_spec (pool : EntityPool) (i : nat) :
  isLive pool i = true <->
  exists ent, m_pool pool !! i = Some ent /\ m_alive ent = true.
Proof.
  unfold isLive. destruct (m_pool pool !! i) as [ent|]; split.
  - intros H. by exists ent.
  - by intros (ent' & [= <-] & H).
  - discriminate.
  - by intros (ent' & ? & _).
Qed.

(** [createEntity] when the pool has a free slot. *)
Lemma World_createEntity_free (w : World) (i : nat) :
  firstFreeEntity (m_pool (m_entityPool w)) = Some i ->
  World_createEntity w
    = ([EntityPool_create_call;
        EntityIDMap_insert_call (m_nextID (m_entityPool w)) (Some i)],
       Returns (Some i,
                insertID (m_nextID (m_entityPool w)) (Some i)
                  (set_entityPool
                     (snd (EntityPool_create (m_entityPool w))) w))).
Proof.
  intros Hfree. destruct (firstFreeEntity_Some _ _ Hfree) as (old & Hold & _).
  unfold World_createEntity, EntityPool_create.
  prog_unfold. cbv beta. rewrite Hfree. unfold entityAt. simpl.
  rewrite list_lookup_insert_eq by (by eapply lookup_lt_Some).
  reflexivity.
Qed.

(** [createEntity] when the pool is exhausted. *)
Lemma World_createEntity_exhausted (w : World) :
  firstFreeEntity (m_pool (m_entityPool w)) = None ->
  World_createEntity w = ([EntityPool_create_call], Faults NullDereference).
Proof.
  intros Hfull. unfold World_createEntity, EntityPool_create.
  prog_unfold. cbv beta. rewrite Hfull. reflexivity.
Qed.

(** C9, as stated, fails: with all 256 slots handed out, [createEntity]
    neither returns a handle nor reports the exhaustion; it dereferences
    the null result of the pool. *)
Lemma World_createEntity_ignores_exhaustion :
  ~ createEntity_checked fullWorld.
Proof.
  assert (H : snd (World_createEntity fullWorld) = Faults NullDereference)
    by (vm_compute; reflexivity).
  unfold createEntity_checked. rewrite H.
  intros [(i & w' & Heq & _) | (w' & Heq)]; discriminate.
Qed.

(** C9, amended.  The pool's [create] hands out a slot that was free, or
    fails when every slot is live; [World::createEntity] uses the result
    without checking it: on success it registers the entity under its ID
    and returns the handle, on exhaustion it dereferences the null result
    and the call aborts after the pool call. *)
Theorem World_createEntity_unchecked (w : World) :
  match EntityPool_create (m_entityPool w) with
  | (Some i, pool) =>
      isLive (m_entityPool w) i = false /\ isLive pool i = true /\
      World_createEntity w
        = ([EntityPool_create_call;
            EntityIDMap_insert_call (m_nextID (m_entityPool w)) (Some i)],
           Returns (Some i,
                    insertID (m_nextID (m_entityPool w)) (Some i)
                      (set_entityPool pool w)))
  | (None, pool) =>
      pool = m_entityPool w /\
      Forall (fun ent => m_alive ent = true) (m_pool (m_entityPool w)) /\
      World_createEntity w
        = ([EntityPool_create_call], Faults NullDereference)
  end.
Proof.
  destruct (firstFreeEntity (m_pool (m_entityPool w))) as [i|] eqn:Hfree.
  - pose proof (World_createEntity_free w i Hfree) as Hrun.
    destruct (firstFreeEntity_Some _ _ Hfree) as (old & Hold & Hdead).
    unfold EntityPool_create in *. rewrite Hfree in *. simpl in Hrun.
    split; [|split; [|exact Hrun]].
    + unfold isLive. by rewrite Hold.
    + unfold isLive. simpl.
      rewrite list_lookup_insert_eq by (by eapply lookup_lt_Some).
      reflexivity.
  - pose proof (World_createEntity_exhausted w Hfree) as Hrun.
    unfold EntityPool_create. rewrite Hfree.
    split; [reflexivity|]. split; [|exact Hrun].
    apply Forall_lookup. intros i ent Hent.
    by eapply firstFreeEntity_None.
Qed.

(** ** The ID map and the pool *)

Lemma EntityPool_create_consistent (w : World) (i : nat) :
  World_consistent w ->
  firstFreeEntity (m_pool (m_entityPool w)) = Some i ->
  World_consistent
    (insertID (m_nextID (m_entityPool w)) (Some i)
       (set_entityPool (snd (EntityPool_create (m_entityPool w))) w)).
Proof.
  intros [Hagree Hbelow] Hfree. unfold idMapAgrees in Hagree.
  destruct (firstFreeEntity_Some _ _ Hfree) as (old & Hold & Hdead).
  assert (Hlt : i < length (m_pool (m_entityPool w)))
    by (by eapply lookup_lt_Some).
  unfold EntityPool_create. rewrite Hfree. simpl.
  set (n := m_nextID (m_entityPool w)).
  split.
  - intros id e. unfold insertID. simpl.
    destruct (decide (id = n)) as [->|Hne].
    + rewrite lookup_insert_eq. split.
      * intros [= <-]. eexists i, _. split; [reflexivity|].
        rewrite list_lookup_insert_eq by exact Hlt. by repeat split.
      * intros (j & ent & -> & Hj & Halive & Hid).
        destruct (decide (j = i)) as [->|Hji]; [reflexivity|].
        rewrite list_lookup_insert_ne in Hj by congruence.
        specialize (Hbelow j ent Hj Halive). subst n. lia.
    + rewrite lookup_insert_ne by congruence. rewrite Hagree. split.
      * intros (j & ent & -> & Hj & Halive & Hid).
        exists j, ent. split; [reflexivity|].
        rewrite list_lookup_insert_ne; [by repeat split|].
        intros ->. congruence.
      * intros (j & ent & -> & Hj & Halive & Hid).
        exists j, ent. split; [reflexivity|].
        destruct (decide (j = i)) as [->|Hji].
        -- rewrite list_lookup_insert_eq in Hj by exact Hlt.
           injection Hj as <-. simpl in Hid. congruence.
        -- rewrite list_lookup_insert_ne in Hj by congruence.
           by repeat split.
  - intros j ent. simpl. intros Hj Halive.
    destruct (decide (j = i)) as [->|Hji].
    + rewrite list_lookup_insert_eq in Hj by exact Hlt.
      injection Hj as <-. simpl. lia.
    + rewrite list_lookup_insert_ne in Hj by congruence.
      specialize (Hbelow j ent Hj Halive). lia.
Qed.

Lemma recycle_pool (w : World) (i : nat) (ent : Entity) :
  m_pool (m_entityPool w) !! i = Some ent -> m_alive ent = true ->
  forall id,
    m_entityPool (recycle (Some i) (eraseID id w))
    = {| m_pool := <[i := mkEntity (m_id ent) false (fun _ => None)]>
                     (m_pool (m_entityPool w));
         m_nextID := m_nextID (m_entityPool w) |}.
Proof.
  intros Hent Halive id. unfold recycle, eraseID, EntityPool_destroy. simpl.
  by rewrite Hent, Halive.
Qed.


Lemma World_destroyEntity_run (w : World) (e : EntityPtr) (ent : Entity) :
  entityAt w e = Some ent ->
  World_destroyEntity e w
    = ([EntityIDMap_erase_call (m_id ent); EntityPool_destroy_call e],
       Returns (tt, recycle e (eraseID (m_id ent) w))).
Proof.
  intros He. unfold World_destroyEntity. prog_unfold. cbv beta.
  unfold option_bind in He |- *. rewrite He. reflexivity.
Qed.



Lemma freshWorld_consistent : World_consistent freshWorld.
Proof.
  assert (Hdead : forall i ent,
            m_pool (m_entityPool freshWorld) !! i = Some ent ->
            m_alive ent = true -> False).
  { intros i ent Hi Halive.
    change (m_pool (m_entityPool freshWorld))
      with (replicate 256 (mkEntity 0 false (fun _ => None))) in Hi.
    apply list_elem_of_lookup_2, elem_of_replicate in Hi as [-> _].
    discriminate. }
  split.
  - intros id e. split.
    + change (m_entityIDMap freshWorld) with (∅ : gmap EntityID EntityPtr).
      intros H. by rewrite lookup_empty in H.
    + intros (i & ent & _ & Hi & Halive & _). by destruct (Hdead i ent).
  - intros i ent Hi Halive. by destruct (Hdead i ent).
Qed.

Lemma loneWorld_consistent : World_consistent loneWorld.
Proof.
  pose proof (EntityPool_create_consistent freshWorld 0
                freshWorld_consistent eq_refl) as H.
  exact H.
Qed.




(** ** The frame *)

Lemma withScenePool_id (w : World) :
  withScenePool (m_scenePool (m_componentFactory w)) w = w.
Proof. destruct w as [? ? ? ? ? ? ? ? [] ? ? ? ?]. reflexivity. Qed.

Lemma writeScene_frame (sceneC : nat) (t : PxTransform) (w w' : World) :
  writeScene sceneC t w = Returns w' ->
  exists pool, w' = withScenePool pool w.
Proof.
  unfold writeScene. prog_unfold.
  destruct (Pool_get _ sceneC) as [sc|]; [|discriminate].
  intros [= <-]. eexists. reflexivity.
Qed.

Lemma PhysicsSystem_updateEntity_frame (e : EntityPtr) (w w' : World) :
  PhysicsSystem_updateEntity e w = Returns w' ->
  exists pool, w' = withScenePool pool w.
Proof.
  unfold PhysicsSystem_updateEntity. prog_unfold.
  destruct (entityAt w e) as [ent|]; [|discriminate].
  destruct (option_bind _ _ _ (getComponent Physics ent)) as [pc|];
    [|discriminate].
  destruct (m_rigidActor pc) as [actor|]; [|discriminate].
  destruct (getGlobalPose (m_PScene w) actor) as [t|]; [|discriminate].
  destruct (getComponent Scene ent) as [sc|]; [|discriminate].
  apply writeScene_frame.
Qed.

Lemma PhysicsSystem_updateLoop_frame (tracked : list (EntityID * EntityPtr))
    (w w' : World) :
  PhysicsSystem_updateLoop tracked w = Returns w' ->
  exists pool, w' = withScenePool pool w.
Proof.
  revert w. induction tracked as [|i rest IH]; intros w; simpl.
  - intros [= <-]. eexists. symmetry. apply withScenePool_id.
  - prog_unfold.
    destruct (PhysicsSystem_updateEntity (snd i) w) as [w1|] eqn:H1;
      [|discriminate].
    intros H. apply PhysicsSystem_updateEntity_frame in H1 as [p1 ->].
    apply IH in H as [p2 ->]. by exists p2.
Qed.

Lemma SystemManager_updateLoop_frame (systems : list PhysicsSystem)
    (w w' : World) :
  SystemManager_updateLoop systems w = Returns w' ->
  exists pool, w' = withScenePool pool w.
Proof.
  revert w. induction systems as [|sys rest IH]; intros w; simpl.
  - intros [= <-]. eexists. symmetry. apply withScenePool_id.
  - prog_unfold. unfold PhysicsSystem_update.
    destruct (PhysicsSystem_updateLoop (m_entities sys) w) as [w1|] eqn:H1;
      [|discriminate].
    intros H. apply PhysicsSystem_updateLoop_frame in H1 as [p1 ->].
    apply IH in H as [p2 ->]. by exists p2.
Qed.

(** The system-manager phase writes scene components and nothing else. *)
Lemma SystemManager_update_frame (w w' : World) :
  SystemManager_update w = Returns w' ->
  exists pool, w' = withScenePool pool w.
Proof. apply SystemManager_updateLoop_frame. Qed.

(** ** The loop over the pool *)

Lemma loopRun_add {St Res : Type} (step : St -> St + Res) (n m : nat)
    (s : St) :
  loopRun (n + m) step s
  = match loopRun n step s with
    | inl s' => loopRun m step s'
    | inr r => inr r
    end.
Proof.
  revert s. induction n as [|n IH]; intros s; [reflexivity|].
  simpl. destruct (step s); [apply IH|reflexivity].
Qed.

Lemma boundedLoop_run {St Res : Type} (step : St -> St + Res) (d : nat)
    (s : St) :
  boundedLoop d step s = loopRun (2 ^ d) step s.
Proof.
  revert s. induction d as [|d IH]; intros s.
  - simpl. by destruct (step s).
  - replace (2 ^ S d) with (2 ^ d + 2 ^ d) by (simpl; lia).
    rewrite loopRun_add. simpl. rewrite IH.
    destruct (loopRun (2 ^ d) step s); [apply IH|reflexivity].
Qed.

Lemma boundedLoop_INT {St Res : Type} (step : St -> St + Res) (s : St) :
  boundedLoop 31 step s = loopRun INT_LIMIT step s.
Proof. exact (boundedLoop_run step 31 s). Qed.

Lemma INT_LIMIT_Z : Z.of_nat INT_LIMIT = (INT_MAX + 1)%Z.
Proof. unfold INT_LIMIT. rewrite Nat2Z.inj_pow. reflexivity. Qed.

Lemma updateEntities_snoc (B : Behaviours) (i : nat) (w : World) :
  updateEntities B (seq 0 (S i)) w
  = Entity_update B i (updateEntities B (seq 0 i) w).
Proof.
  rewrite seq_S. unfold updateEntities. by rewrite foldl_app.
Qed.

(** The loop over the pool, test by test: from counter [i] it goes on
    slot by slot, and leaves at the first counter that is not below the
    capacity of the pool as it is then. *)
Lemma entityLoop_run (B : Behaviours) (w : World) (m i : nat) :
  testsPassed B w i ->
  exists n,
    testsPassed B w n /\
    (loopRun m (entityLoopStep B) (i, updateEntities B (seq 0 i) w)
       = inl (n, updateEntities B (seq 0 n) w) /\ n = i + m
     \/ loopRun m (entityLoopStep B) (i, updateEntities B (seq 0 i) w)
          = inr (n, updateEntities B (seq 0 n) w) /\
        ~ n < m_poolSize (m_entityPool (updateEntities B (seq 0 n) w)) /\
        n < i + m).
Proof.
  revert i. induction m as [|m IH]; intros i Hi.
  - exists i. split; [exact Hi|]. left. split; [reflexivity|lia].
  - cbn [loopRun].
    destruct (decide (i < m_poolSize
                            (m_entityPool (updateEntities B (seq 0 i) w))))
      as [Hlt|Hge].
    + assert (Hstep : entityLoopStep B (i, updateEntities B (seq 0 i) w)
                      = inl (S i, updateEntities B (seq 0 (S i)) w)).
      { unfold entityLoopStep. rewrite decide_True by exact Hlt.
        by rewrite updateEntities_snoc. }
      rewrite !Hstep.
      destruct (IH (S i)) as (n & Hn & Hrun).
      { unfold testsPassed. rewrite seq_S. apply Forall_app.
        split; [exact Hi|]. apply Forall_singleton. exact Hlt. }
      exists n. split; [exact Hn|].
      destruct Hrun as [[Hrun ->]|(Hrun & Hstop & Hb)].
      * left. split; [exact Hrun|lia].
      * right. split; [exact Hrun|]. split; [exact Hstop|lia].
    + assert (Hstep : entityLoopStep B (i, updateEntities B (seq 0 i) w)
                      = inr (i, updateEntities B (seq 0 i) w)).
      { unfold entityLoopStep. by rewrite decide_False by exact Hge. }
      rewrite !Hstep.
      exists i. split; [exact Hi|]. right.
      split; [reflexivity|]. split; [exact Hge|lia].
Qed.

Lemma entityLoop_spec (B : Behaviours) (w : World) :
  exists n,
    entityLoop B w = (n, updateEntities B (seq 0 n) w) /\
    testsPassed B w n /\
    (n = INT_LIMIT \/
     ~ n < m_poolSize (m_entityPool (updateEntities B (seq 0 n) w)) /\
     n < INT_LIMIT).
Proof.
  unfold entityLoop. rewrite boundedLoop_INT.
  generalize INT_LIMIT. intros limit.
  destruct (entityLoop_run B w limit 0) as (n & Hn & Hrun);
    [constructor|].
  exists n. change (updateEntities B (seq 0 0) w) with w in Hrun.
  rewrite Nat.add_0_l in Hrun.
  destruct Hrun as [[Hrun Hlim]|(Hrun & Hstop & Hb)]; rewrite Hrun.
  - split; [reflexivity|]. split; [exact Hn|]. left. exact Hlim.
  - split; [reflexivity|]. split; [exact Hn|]. right. by split.
Qed.

Lemma updateEntities_poolSize (B : Behaviours) (items : list nat)
    (w : World) :
  capacityKept B ->
  m_poolSize (m_entityPool (updateEntities B items w))
  = m_poolSize (m_entityPool w).
Proof.
  intros HB. revert w. induction items as [|i rest IH]; intros w;
    [reflexivity|].
  unfold updateEntities in *. simpl. rewrite IH. apply HB.
Qed.

(** With updates that keep the capacity, an [int], the loop visits every
    slot of the pool. *)
Lemma entityLoop_kept (B : Behaviours) (w : World) :
  capacityKept B ->
  (Z.of_nat (m_poolSize (m_entityPool w)) <= INT_MAX)%Z ->
  entityLoop B w
  = (m_poolSize (m_entityPool w),
     updateEntities B (seq 0 (m_poolSize (m_entityPool w))) w).
Proof.
  intros Hkept Hint.
  destruct (entityLoop_spec B w) as (n & -> & Hpassed & Hstop).
  assert (Hcap : forall k,
            m_poolSize (m_entityPool (updateEntities B (seq 0 k) w))
            = m_poolSize (m_entityPool w))
    by (intros k; by apply updateEntities_poolSize).
  rewrite Hcap in Hstop.
  assert (Hle : n <= m_poolSize (m_entityPool w)).
  { destruct n as [|n']; [lia|].
    unfold testsPassed in Hpassed. rewrite Forall_forall in Hpassed.
    specialize (Hpassed n'). rewrite Hcap in Hpassed.
    apply Hpassed. apply elem_of_seq. lia. }
  pose proof INT_LIMIT_Z as Hlimit.
  assert (n = m_poolSize (m_entityPool w)) as -> by lia.
  reflexivity.
Qed.

(** [World::update], phase by phase. *)
Lemma World_update_run (B : Behaviours) (w : World) :
  World_update B w
  = match SystemManager_update (Network_update B w) with
    | Returns w2 =>
        let n := fst (entityLoop B w2) in
        let w3 := snd (entityLoop B w2) in
        ([Network_update_call; SystemManager_update_call]
         ++ (Entity_update_call <$> seq 0 n)
         ++ (if m_usePhysics w3 then [PScene_simulate_call] else [])
         ++ [Environment_update_call],
         Returns (tt, updateEnvironment B
                        (if m_usePhysics w3 then simulate B w3 else w3)))
    | Faults f =>
        ([Network_update_call; SystemManager_update_call], Faults f)
    end.
Proof.
  unfold World_update.
  unfold mbind at 1, Prog_mbind, Prog_bind at 1, call at 1. simpl.
  unfold mbind at 1, Prog_mbind, Prog_bind at 1, call at 1. simpl.
  unfold mbind at 1, Outcome_mbind, Outcome_bind at 1.
  destruct (SystemManager_update (Network_update B w)) as [w2|f];
    [|reflexivity].
  simpl.
  unfold mbind at 1, Prog_mbind, Prog_bind at 1, World_update_entities at 1.
  destruct (entityLoop B w2) as [n w3]. simpl.
  unfold mbind at 1, Prog_mbind, Prog_bind at 1, step at 1. simpl.
  destruct (m_usePhysics w3); reflexivity.
Qed.

Lemma updateEntities_usePhysics (B : Behaviours) (items : list nat)
    (w : World) :
  Behaviours_frame B ->
  m_usePhysics (updateEntities B items w) = m_usePhysics w.
Proof.
  intros HB. revert w. induction items as [|i rest IH]; intros w;
    [reflexivity|].
  unfold updateEntities in *. simpl. rewrite IH.
  apply (Entity_update_usePhysics B HB).
Qed.

Lemma Network_update_frame (B : Behaviours) (w : World) :
  Behaviours_frame B ->
  m_usePhysics (Network_update B w) = m_usePhysics w /\
  m_poolSize (m_entityPool (Network_update B w)) = m_poolSize (m_entityPool w).
Proof.
  intros HB. unfold Network_update. destruct (m_network w).
  - split; reflexivity.
  - split; [apply (Server_update_usePhysics B HB)
           | apply (Server_update_poolSize B HB)].
  - split; [apply (Client_update_usePhysics B HB)
           | apply (Client_update_poolSize B HB)].
Qed.

Example World_update_stops_in_phase_two :
  World_update idleBehaviours orphanWorld
  = ([Network_update_call; SystemManager_update_call],
     Faults NullDereference).
Proof. vm_compute. reflexivity. Qed.

(** C1, as stated, fails: not every call of [World::update] runs the five
    phases.  With collaborators that do nothing at all, in the world left
    by [destroyEntity] of an entity the physics system tracks, the call
    ends inside the system-manager update: the entity updates, the physics
    step and the environment update are skipped. *)
Lemma World_update_can_end_in_phase_two :
  Behaviours_frame idleBehaviours /\
  ~ runsFivePhases idleBehaviours orphanWorld.
Proof.
  split; [constructor; reflexivity|].
  intros [w' H]. rewrite World_update_stops_in_phase_two in H.
  discriminate H.
Qed.

(** C1, amended.  With a network update and entity updates that leave
    [m_usePhysics] and the capacity of the pool, an [int], unchanged: a
    call of [World::update] whose system-manager update does not abort
    makes exactly these calls, in this order, each on the state the
    previous one left, and then returns: the network update, the
    system-manager update, the update of every slot of the pool, the
    physics step if and only if physics is enabled, the environment
    update.  A call whose system-manager update aborts ends right there,
    after the first two calls, with that fault. *)
Theorem World_update_five_phases (B : Behaviours) (w : World) :
  Behaviours_frame B ->
  (Z.of_nat (m_poolSize (m_entityPool w)) <= INT_MAX)%Z ->
  match SystemManager_update (Network_update B w) with
  | Returns w2 =>
      let w3 := updateEntities B (seq 0 (m_poolSize (m_entityPool w))) w2 in
      World_update B w
        = (World_update_phases w,
           Returns (tt, updateEnvironment B
                          (if m_usePhysics w then simulate B w3 else w3)))
  | Faults f =>
      World_update B w
        = ([Network_update_call; SystemManager_update_call], Faults f)
  end.
Proof.
  intros HB Hint. rewrite World_update_run.
  destruct (SystemManager_update (Network_update B w)) as [w2|f] eqn:Hsys;
    [|reflexivity].
  apply SystemManager_update_frame in Hsys as [pool ->].
  destruct (Network_update_frame B w HB) as [Hphys Hsize].
  rewrite entityLoop_kept.
  - unfold World_update_phases. cbv zeta. simpl fst. simpl snd.
    rewrite updateEntities_usePhysics by exact HB.
    change (m_entityPool (withScenePool pool ?x)) with (m_entityPool x).
    change (m_usePhysics (withScenePool pool ?x)) with (m_usePhysics x).
    rewrite Hphys, Hsize. reflexivity.
  - exact (Entity_update_poolSize B HB).
  - change (m_entityPool (withScenePool pool ?x)) with (m_entityPool x).
    by rewrite Hsize.
Qed.

Lemma World_update_five_phases_witness :
  Behaviours_frame idleBehaviours /\
  exists w',
    World_update idleBehaviours freshWorld
      = (World_update_phases freshWorld, Returns (tt, w')).
Proof.
  assert (HB : Behaviours_frame idleBehaviours)
    by (constructor; reflexivity).
  split; [exact HB|].
  assert (Hint : (Z.of_nat (m_poolSize (m_entityPool freshWorld))
                  <= INT_MAX)%Z) by (vm_compute; discriminate).
  pose proof (World_update_five_phases idleBehaviours freshWorld HB Hint)
    as H.
  destruct (SystemManager_update (Network_update idleBehaviours freshWorld))
    as [w2|f] eqn:Hsys.
  - eexists. exact H.
  - vm_compute in Hsys. discriminate Hsys.
Defined.

(** ** Attaching components *)

Lemma allocate_entityPool (k : ComponentKind) (w : World) :
  m_entityPool (snd (allocate k w)) = m_entityPool w.
Proof.
  unfold allocate.
  by destruct (ComponentFactory_create k (m_componentFactory w)).
Qed.



Example physicsWorld_tracks :
  trackedEntries physicsWorld = [(0, Some 0)] /\
  enginePose physicsWorld (Some 0) = Some restPose /\
  SystemManager_update physicsWorld
    = Returns (withScenePool
                 [mkSlot true (mkSceneComponent (mkVector3 0 10 0)
                                 (mkQuaternion 1 0 0 0))%Z;
                  mkSlot false (mkSceneComponent (mkVector3 0 0 0)
                                  (mkQuaternion 0 0 0 0))%Z]
                 physicsWorld) /\
  trackedEntries orphanWorld = [(0, Some 0)] /\
  isLive (m_entityPool orphanWorld) 0 = false /\
  SystemManager_update orphanWorld = Faults NullDereference.
Proof. vm_compute. repeat split; reflexivity. Qed.

(** ** The physics system *)

Lemma sceneOf_Some (w : World) (e : EntityPtr) (sc : nat) :
  sceneOf w e = Some sc ->
  exists ent s,
    entityAt w e = Some ent /\ getComponent Scene ent = Some sc /\
    Pool_get (m_scenePool (m_componentFactory w)) sc = Some s.
Proof.
  unfold sceneOf. intros H.
  destruct (entityAt w e) as [ent|]; [|discriminate]. simpl in H.
  destruct (getComponent Scene ent) as [sc'|] eqn:Hsc; [|discriminate].
  simpl in H.
  destruct (Pool_get _ sc') as [s|] eqn:Hs; [|discriminate].
  simpl in H. injection H as ->. by exists ent, s.
Qed.

Lemma PhysicsSystem_updateEntity_ready (w : World) (e : EntityPtr)
    (t : PxTransform) (sc : nat) :
  poseAndScene w e = Some (t, sc) ->
  exists s,
    Pool_get (m_scenePool (m_componentFactory w)) sc = Some s /\
    PhysicsSystem_updateEntity e w
      = Returns (withScenePool
                   (Pool_set (m_scenePool (m_componentFactory w)) sc
                      (copyPose t s)) w).
Proof.
  unfold poseAndScene. intros H.
  destruct (enginePose w e) as [t'|] eqn:Ht; [|discriminate]. simpl in H.
  destruct (sceneOf w e) as [sc'|] eqn:Hsc; [|discriminate].
  injection H as -> ->.
  apply sceneOf_Some in Hsc as (ent & s & He & Hc & Hs).
  exists s. split; [exact Hs|].
  unfold enginePose in Ht. rewrite He in Ht. simpl in Ht.
  unfold PhysicsSystem_updateEntity, writeScene. prog_unfold.
  rewrite He. simpl.
  destruct (getComponent Physics ent) as [c|]; [|discriminate]. simpl in *.
  destruct (Pool_get (m_physicsPool _) c) as [pc|]; [|discriminate].
  simpl in *.
  destruct (m_rigidActor pc) as [actor|]; [|discriminate]. simpl in *.
  rewrite Ht, Hc, Hs. reflexivity.
Qed.

Lemma PhysicsSystem_updateEntity_stuck (w : World) (e : EntityPtr) :
  poseAndScene w e = None ->
  PhysicsSystem_updateEntity e w = Faults NullDereference.
Proof.
  unfold poseAndScene, enginePose, sceneOf.
  unfold PhysicsSystem_updateEntity, writeScene. prog_unfold.
  destruct (entityAt w e) as [ent|]; [|reflexivity]. simpl.
  destruct (getComponent Physics ent) as [c|]; [|reflexivity]. simpl.
  destruct (Pool_get (m_physicsPool _) c) as [pc|]; [|reflexivity]. simpl.
  destruct (m_rigidActor pc) as [actor|]; [|reflexivity]. simpl.
  destruct (getGlobalPose (m_PScene w) actor) as [t|]; [|reflexivity]. simpl.
  destruct (getComponent Scene ent) as [sc|]; [|reflexivity]. simpl.
  destruct (Pool_get (m_scenePool _) sc) as [s|]; [discriminate|reflexivity].
Qed.

Lemma Pool_set_length {T : Type} (pool : Pool T) (i : nat) (v : T) :
  length (Pool_set pool i v) = length pool.
Proof. apply length_alter. Qed.

Lemma Pool_get_is_Some {T : Type} (pool pool' : Pool T) (i : nat) :
  length pool' = length pool ->
  is_Some (Pool_get pool' i) <-> is_Some (Pool_get pool i).
Proof.
  intros Hlen. unfold Pool_get. rewrite !fmap_is_Some.
  rewrite !lookup_lt_is_Some. by rewrite Hlen.
Qed.

(** Replacing the scene pool by one of the same size changes neither the
    engine's poses nor who owns which scene component. *)
Lemma withScenePool_sceneOf (w : World) (pool : Pool SceneComponent)
    (e : EntityPtr) :
  length pool = length (m_scenePool (m_componentFactory w)) ->
  sceneOf (withScenePool pool w) e = sceneOf w e.
Proof.
  intros Hlen. unfold sceneOf.
  change (entityAt (withScenePool pool w) e) with (entityAt w e).
  destruct (entityAt w e) as [ent|]; [|reflexivity]. simpl.
  destruct (getComponent Scene ent) as [sc|]; [|reflexivity]. simpl.
  pose proof (Pool_get_is_Some _ _ sc Hlen) as Hiff.
  destruct (Pool_get pool sc) as [s|] eqn:H1;
    destruct (Pool_get (m_scenePool (m_componentFactory w)) sc) as [s'|]
      eqn:H2; try reflexivity.
  - destruct Hiff as [Hiff _]. by destruct Hiff.
  - destruct Hiff as [_ Hiff]. by destruct Hiff.
Qed.

Lemma withScenePool_poseAndScene (w : World) (pool : Pool SceneComponent)
    (e : EntityPtr) :
  length pool = length (m_scenePool (m_componentFactory w)) ->
  poseAndScene (withScenePool pool w) e = poseAndScene w e.
Proof.
  intros Hlen. unfold poseAndScene.
  rewrite withScenePool_sceneOf by exact Hlen. reflexivity.
Qed.

Lemma PhysicsSystem_updateLoop_spec (tracked : list (EntityID * EntityPtr))
    (w : World) :
  match PhysicsSystem_updateLoop tracked w with
  | Returns w' =>
      (forall id e, (id, e) ∈ tracked -> is_Some (poseAndScene w e)) /\
      exists pool,
        w' = withScenePool pool w /\
        length pool = length (m_scenePool (m_componentFactory w))
  | Faults f =>
      f = NullDereference /\
      exists id e, (id, e) ∈ tracked /\ poseAndScene w e = None
  end.
Proof.
  revert w. induction tracked as [|[id e] rest IH]; intros w; simpl.
  - split; [intros ? ? H; by apply elem_of_nil in H|].
    exists (m_scenePool (m_componentFactory w)).
    split; [symmetry; apply withScenePool_id | reflexivity].
  - unfold mbind, Outcome_mbind, Outcome_bind.
    destruct (poseAndScene w e) as [[t sc]|] eqn:Hps.
    + destruct (PhysicsSystem_updateEntity_ready w e t sc Hps)
        as (s & Hs & ->).
      set (pool1 := Pool_set _ sc (copyPose t s)).
      assert (Hlen1 : length pool1
                      = length (m_scenePool (m_componentFactory w)))
        by apply Pool_set_length.
      specialize (IH (withScenePool pool1 w)).
      destruct (PhysicsSystem_updateLoop rest (withScenePool pool1 w))
        as [w'|f].
      * destruct IH as [Hall (pool & -> & Hlen)]. split.
        -- intros id' e' Hin. apply elem_of_cons in Hin as [[= -> ->]|Hin].
           ++ by rewrite Hps.
           ++ rewrite <- (withScenePool_poseAndScene w pool1) by exact Hlen1.
              by eapply Hall.
        -- exists pool. split; [reflexivity|].
           simpl in Hlen. congruence.
      * destruct IH as [-> (id' & e' & Hin & Hnone)].
        split; [reflexivity|]. exists id', e'.
        split; [apply elem_of_cons; by right|].
        by rewrite <- (withScenePool_poseAndScene w pool1).
    + rewrite (PhysicsSystem_updateEntity_stuck w e Hps).
      split; [reflexivity|]. exists id, e.
      split; [apply elem_of_cons; by left | exact Hps].
Qed.

(** C7, as stated, fails: after [destroyEntity] of a tracked entity the
    next update of the systems dereferences it and aborts. *)
Lemma PhysicsSystem_trips_over_destroyed_entity :
  ~ toleratesDestroyed orphanWorld.
Proof.
  assert (H : SystemManager_update orphanWorld = Faults NullDereference)
    by (vm_compute; reflexivity).
  unfold toleratesDestroyed. rewrite H. intros (w' & Heq & _).
  discriminate.
Qed.

(** C7, amended.  [PhysicsSystem::update] dereferences every tracked entity
    without checking that it is still alive.  It returns exactly when every
    tracked entry still resolves to an entity with a physics component whose
    rigid actor has a pose and with a scene component, and aborts with a
    null dereference otherwise; when it returns, the tracked sets and the
    entity pool are as before, so no entry is ever dropped. *)
Theorem PhysicsSystem_update_unguarded (sys : PhysicsSystem) (w : World) :
  match PhysicsSystem_update sys w with
  | Returns w' =>
      Forall (fun i => is_Some (poseAndScene w (snd i))) (m_entities sys) /\
      m_systemManager w' = m_systemManager w /\
      m_entityPool w' = m_entityPool w
  | Faults f =>
      f = NullDereference /\
      Exists (fun i => poseAndScene w (snd i) = None) (m_entities sys)
  end.
Proof.
  unfold PhysicsSystem_update.
  pose proof (PhysicsSystem_updateLoop_spec (m_entities sys) w) as H.
  destruct (PhysicsSystem_updateLoop (m_entities sys) w) as [w'|f].
  - destruct H as [Hall (pool & -> & _)].
    split; [|split; reflexivity].
    apply Forall_forall. intros [id e] Hin. by apply (Hall id e).
  - destruct H as [-> (id & e & Hin & Hnone)].
    split; [reflexivity|]. apply Exists_exists. by exists (id, e).
Qed.

(** ** The pose of a tracked entity *)

Lemma PhysicsSystem_updateLoop_app (l1 l2 : list (EntityID * EntityPtr))
    (w : World) :
  PhysicsSystem_updateLoop (l1 ++ l2) w
  = Outcome_bind (PhysicsSystem_updateLoop l1 w)
      (PhysicsSystem_updateLoop l2).
Proof.
  revert w. induction l1 as [|i rest IH]; intros w; simpl; [reflexivity|].
  unfold mbind, Outcome_mbind, Outcome_bind.
  destruct (PhysicsSystem_updateEntity (snd i) w) as [w1|f]; [|reflexivity].
  apply IH.
Qed.

Lemma SystemManager_updateLoop_flat (systems : list PhysicsSystem)
    (w : World) :
  SystemManager_updateLoop systems w
  = PhysicsSystem_updateLoop (systems ≫= m_entities) w.
Proof.
  revert w. induction systems as [|sys rest IH]; intros w; [reflexivity|].
  simpl. rewrite PhysicsSystem_updateLoop_app.
  unfold mbind at 1, Outcome_mbind, Outcome_bind, PhysicsSystem_update.
  destruct (PhysicsSystem_updateLoop (m_entities sys) w); [apply IH|].
  reflexivity.
Qed.

Lemma withScenePool_scenePose (w : World) (pool : Pool SceneComponent)
    (e : EntityPtr) (sc : nat) :
  length pool = length (m_scenePool (m_componentFactory w)) ->
  sceneOf w e = Some sc ->
  scenePose (withScenePool pool w) e
  = (fun s => (m_position s, m_orientation s)) <$> Pool_get pool sc.
Proof.
  intros Hlen Hsc. unfold scenePose.
  rewrite withScenePool_sceneOf, Hsc by exact Hlen. simpl.
  by destruct (Pool_get pool sc).
Qed.

Lemma scenePose_sceneOf (w : World) (e : EntityPtr) (sc : nat) :
  sceneOf w e = Some sc ->
  scenePose w e
  = (fun s => (m_position s, m_orientation s))
      <$> Pool_get (m_scenePool (m_componentFactory w)) sc.
Proof.
  intros Hsc. unfold scenePose. rewrite Hsc. simpl.
  by destruct (Pool_get _ sc).
Qed.

Lemma poseAndScene_Some (w : World) (e : EntityPtr) (t : PxTransform)
    (sc : nat) :
  poseAndScene w e = Some (t, sc) <->
  enginePose w e = Some t /\ sceneOf w e = Some sc.
Proof.
  unfold poseAndScene.
  destruct (enginePose w e) as [t'|]; simpl;
    [|split; [discriminate | by intros [? _]]].
  destruct (sceneOf w e) as [sc'|]; simpl;
    [|split; [discriminate | by intros [_ ?]]].
  split; [by intros [= -> ->] | by intros [[= ->] [= ->]]].
Qed.

(** Entries that do not share the scene component of [e0] leave it alone. *)
Lemma PhysicsSystem_updateLoop_other (tracked : list (EntityID * EntityPtr))
    (w w' : World) (e0 : EntityPtr) (sc0 : nat) :
  PhysicsSystem_updateLoop tracked w = Returns w' ->
  sceneOf w e0 = Some sc0 ->
  (forall e, e ∈ tracked.*2 -> sceneOf w e <> Some sc0) ->
  scenePose w' e0 = scenePose w e0.
Proof.
  revert w. induction tracked as [|[id e] rest IH]; intros w; simpl.
  - by intros [= <-].
  - unfold mbind, Outcome_mbind, Outcome_bind. intros Hrun Hsc0 Hother.
    destruct (poseAndScene w e) as [[t sc]|] eqn:Hps;
      [|by rewrite (PhysicsSystem_updateEntity_stuck w e Hps) in Hrun].
    destruct (PhysicsSystem_updateEntity_ready w e t sc Hps)
      as (s & Hs & Hstep).
    rewrite Hstep in Hrun. clear Hstep.
    set (pool1 := Pool_set _ sc (copyPose t s)) in Hrun.
    assert (Hlen1 : length pool1
                    = length (m_scenePool (m_componentFactory w)))
      by apply Pool_set_length.
    apply poseAndScene_Some in Hps as [_ Hsc].
    assert (Hne : sc <> sc0).
    { intros ->. apply (Hother e); [|exact Hsc].
      apply elem_of_cons. by left. }
    rewrite (IH _ Hrun).
    + rewrite (withScenePool_scenePose w pool1 e0 sc0 Hlen1 Hsc0).
      rewrite (scenePose_sceneOf w e0 sc0 Hsc0).
      unfold pool1. by rewrite Pool_get_set_ne.
    + by rewrite withScenePool_sceneOf.
    + intros e' Hin. rewrite withScenePool_sceneOf by exact Hlen1.
      apply Hother. apply elem_of_cons. by right.
Qed.

(** After the loop the scene component of every tracked entity holds the
    pose the engine reported when the loop started. *)
Lemma PhysicsSystem_updateLoop_copies (tracked : list (EntityID * EntityPtr))
    (w w' : World) :
  PhysicsSystem_updateLoop tracked w = Returns w' ->
  owns w tracked ->
  forall e, e ∈ tracked.*2 ->
    is_Some (enginePose w e) /\
    scenePose w' e = poseOf <$> enginePose w e.
Proof.
  revert w. induction tracked as [|[id e] rest IH]; intros w; simpl.
  - intros _ _ e He. by apply elem_of_nil in He.
  - unfold mbind, Outcome_mbind, Outcome_bind. intros Hrun Howns e' He'.
    destruct (poseAndScene w e) as [[t sc]|] eqn:Hps;
      [|by rewrite (PhysicsSystem_updateEntity_stuck w e Hps) in Hrun].
    destruct (PhysicsSystem_updateEntity_ready w e t sc Hps)
      as (s & Hs & Hstep).
    rewrite Hstep in Hrun. clear Hstep.
    set (pool1 := Pool_set _ sc (copyPose t s)) in Hrun.
    assert (Hlen1 : length pool1
                    = length (m_scenePool (m_componentFactory w)))
      by apply Pool_set_length.
    apply poseAndScene_Some in Hps as [Ht Hsc].
    destruct (decide (e' ∈ rest.*2)) as [Hin|Hnotin].
    + change (enginePose w e') with (enginePose (withScenePool pool1 w) e').
      apply (IH _ Hrun); [|exact Hin].
      intros e1 e2 sc' H1 H2.
      rewrite !withScenePool_sceneOf by exact Hlen1.
      apply Howns; apply elem_of_cons; by right.
    + apply elem_of_cons in He' as [->|Hin]; [|contradiction].
      rewrite Ht. split; [by eexists|].
      rewrite (PhysicsSystem_updateLoop_other rest _ w' e sc Hrun).
      * rewrite (withScenePool_scenePose w pool1 e sc Hlen1 Hsc).
        unfold pool1. rewrite (Pool_get_set _ _ s) by exact Hs.
        reflexivity.
      * by rewrite withScenePool_sceneOf.
      * intros e2 Hin2. rewrite withScenePool_sceneOf by exact Hlen1.
        intros Hsc2. apply Hnotin.
        assert (e2 = e) as <-; [|exact Hin2].
        apply (Howns e2 e sc); [| |exact Hsc2|exact Hsc].
        -- apply elem_of_cons. by right.
        -- apply elem_of_cons. by left.
Qed.

Lemma updateEntities_quiet (B : Behaviours) (items : list nat) (w : World) :
  quietFrame B -> updateEntities B items w = w.
Proof.
  intros (_ & _ & Hquiet). revert w.
  induction items as [|i rest IH]; intros w; [reflexivity|].
  unfold updateEntities in *. simpl. by rewrite Hquiet.
Qed.

Lemma entityLoop_quiet (B : Behaviours) (w : World) :
  quietFrame B -> snd (entityLoop B w) = w.
Proof.
  intros Hquiet.
  destruct (entityLoop_spec B w) as (n & -> & _).
  by apply updateEntities_quiet.
Qed.

Lemma Network_update_quiet (B : Behaviours) (w : World) :
  quietFrame B -> Network_update B w = w.
Proof.
  intros (Hs & Hc & _). unfold Network_update.
  by destruct (m_network w).
Qed.

(** C5, as stated, fails: one frame after an entity was given its physics
    and scene components, its scene component holds the pose from before
    the frame's physics step, not the pose the engine reports after it. *)
Lemma scene_pose_is_one_step_behind :
  ~ sceneFollowsPhysics fallingBehaviours physicsWorld.
Proof.
  intros H.
  specialize (H (stateAfter (World_update fallingBehaviours) physicsWorld)
                0 (Some 0)).
  assert (Hrun : snd (World_update fallingBehaviours physicsWorld)
                 = Returns (tt, stateAfter (World_update fallingBehaviours)
                                  physicsWorld))
    by (vm_compute; reflexivity).
  assert (Hin : (0, Some 0) ∈ trackedEntries physicsWorld).
  { change (trackedEntries physicsWorld) with [(0, Some 0)].
    apply elem_of_cons. by left. }
  specialize (H Hrun Hin). vm_compute in H. discriminate H.
Qed.

(** C5, amended.  When no two tracked entities share a scene component: if
    the system-manager update of a frame returns, it has stored in the
    scene component of every tracked entity, float for float, the pose the
    engine reported for that entity when the system manager ran, which is
    after the network update and before the physics step of the frame, and
    it has not moved the engine.  The entity updates come next; only then
    does the physics step of the same frame advance the engine, when
    physics is enabled, and neither it nor the environment update that
    follows writes a component or an entity: the poses that the physics
    step of a frame produces are not copied to the scene components in that
    frame.  If the system-manager update aborts, so does the frame. *)
Theorem World_update_pose_lag (B : Behaviours) (w : World) :
  sceneOwnership (Network_update B w) ->
  match SystemManager_update (Network_update B w) with
  | Returns w2 =>
      Forall (fun i => is_Some (enginePose (Network_update B w) i.2) /\
                       scenePose w2 i.2
                       = poseOf <$> enginePose (Network_update B w) i.2)
        (trackedEntries (Network_update B w)) /\
      m_PScene w2 = m_PScene (Network_update B w) /\
      exists w',
        snd (World_update B w) = Returns (tt, w') /\
        m_PScene w'
        = (if m_usePhysics (snd (entityLoop B w2))
           then PScene_simulate B (m_PScene (snd (entityLoop B w2)))
           else m_PScene (snd (entityLoop B w2))) /\
        m_componentFactory w' = m_componentFactory (snd (entityLoop B w2)) /\
        m_entityPool w' = m_entityPool (snd (entityLoop B w2))
  | Faults f => snd (World_update B w) = Faults f
  end.
Proof.
  intros Howns. rewrite World_update_run.
  set (w1 := Network_update B w) in *.
  destruct (SystemManager_update w1) as [w2|f] eqn:Hsys; [|reflexivity].
  pose proof Hsys as Hrun.
  unfold SystemManager_update in Hrun.
  rewrite SystemManager_updateLoop_flat in Hrun. fold (trackedEntries w1) in Hrun.
  split; [|split].
  - apply Forall_forall. intros [id e] Hin. simpl.
    apply (PhysicsSystem_updateLoop_copies _ w1 w2 Hrun Howns e).
    apply list_elem_of_fmap. by exists (id, e).
  - apply SystemManager_update_frame in Hsys as [pool ->]. reflexivity.
  - cbv zeta. generalize (snd (entityLoop B w2)). intros w3.
    eexists. split; [reflexivity|].
    by destruct (m_usePhysics w3).
Qed.

Lemma physicsWorld_owned : sceneOwnership physicsWorld.
Proof.
  assert (Htracked : trackedEntries physicsWorld = [(0, Some 0)])
    by reflexivity.
  unfold sceneOwnership, owns. rewrite Htracked.
  intros e1 e2 sc H1 H2 _ _.
  apply list_elem_of_singleton in H1, H2. congruence.
Qed.

Lemma World_update_pose_lag_witness :
  sceneOwnership physicsWorld /\
  exists w2,
    SystemManager_update physicsWorld = Returns w2 /\
    scenePose w2 (Some 0) = Some (poseOf restPose) /\
    m_PScene w2 = m_PScene physicsWorld.
Proof.
  split; [exact physicsWorld_owned|].
  assert (Hnet : Network_update fallingBehaviours physicsWorld
                 = physicsWorld) by (vm_compute; reflexivity).
  assert (Howns : sceneOwnership
                    (Network_update fallingBehaviours physicsWorld))
    by (rewrite Hnet; exact physicsWorld_owned).
  pose proof (World_update_pose_lag fallingBehaviours physicsWorld Howns)
    as H.
  rewrite Hnet in H.
  destruct (SystemManager_update physicsWorld) as [w2|f] eqn:Hsys.
  - exists w2. split; [reflexivity|].
    destruct H as (Hall & Hscene & _). split; [|exact Hscene].
    rewrite Forall_forall in Hall.
    destruct (Hall (0, Some 0)) as [_ Hpose].
    + apply list_elem_of_singleton. reflexivity.
    + cbn [snd] in Hpose. rewrite Hpose. vm_compute. reflexivity.
  - vm_compute in Hsys. discriminate Hsys.
Defined.

(** ** The scan over the pool *)

Lemma updateEntities_cons (B : Behaviours) (i : nat) (items : list nat)
    (w : World) :
  updateEntities B (i :: items) w
  = updateEntities B items (Entity_update B i w).
Proof. reflexivity. Qed.









(** * Further properties of the modelled code *)

(** ** Network back ends *)

(** X1.  [World::init] selects the server when both injected back ends are
    initialised, and then the client stays initialised although it is not
    the current strategy; in every other case the only initialised back end
    is the one behind [m_network]. *)
Theorem World_init_network_coherent (deps : Dependencies) (env : Environment)
    (factory : ComponentFactory) (usePhysics : bool) :
  let w := World_init deps env factory usePhysics in
  (network_coherent w <->
   ~ (Server.initialized (server deps) = true /\
      Client.initialized (client deps) = true)) /\
  World_role w = (if Server.initialized (server deps) then ServerRole
                  else if Client.initialized (client deps) then ClientRole
                  else Disabled).
Proof.
  unfold network_coherent, World_init, World_role. simpl.
  destruct (Server.initialized (server deps)) eqn:Hs,
    (Client.initialized (client deps)) eqn:Hc; simpl;
    rewrite ?Hs, ?Hc; (split; [|reflexivity]).
  - split; [intros [_ H]; by specialize (H eq_refl) | intros H; by destruct H].
  - split; [by intros _ [_ ?] | intros _; by split].
  - split; [by intros _ [? _] | intros _; by split].
  - split; [by intros _ [? _] | intros _; by split].
Qed.

Lemma Network_destroy_coherent (w : World) :
  network_coherent w ->
  network_coherent (set_network SNullNetwork (Network_destroy w)).
Proof.
  unfold network_coherent, Network_destroy. intros [Hs Hc].
  destruct (m_network w) eqn:Hn; simpl; split; intros H;
    try discriminate H.
  - specialize (Hs H). congruence.
  - specialize (Hc H). congruence.
  - specialize (Hc H). congruence.
  - specialize (Hs H). congruence.
Qed.

(** X2.  In a world where an initialised back end is always the one behind
    [m_network]: server and client are never initialised at the same time,
    and [initServer], [initClient], [destroyServer], [destroyClient] and
    [resume] all keep it that way whenever they return. *)
Theorem World_network_exclusive (B : Behaviours) (w : World) (port : Z)
    (name : string) :
  network_coherent w ->
  ~ (Server.initialized (m_server w) = true /\
     Client.initialized (m_client w) = true) /\
  match snd (World_initServer port name w) with
  | Returns (_, w') => network_coherent w' /\ World_role w' = ServerRole
  | Faults _ => World_role w <> Disabled
  end /\
  match snd (World_initClient w) with
  | Returns (_, w') => network_coherent w' /\ World_role w' = ClientRole
  | Faults _ => World_role w <> Disabled
  end /\
  (exists w', snd (World_destroyServer w) = Returns (tt, w') /\
              network_coherent w' /\ World_role w' = Disabled) /\
  (exists w', snd (World_destroyClient w) = Returns (tt, w') /\
              network_coherent w' /\ World_role w' = Disabled) /\
  match snd (World_resume B w) with
  | Returns (_, w') => network_coherent w' /\ World_role w' = World_role w
  | Faults _ => m_mainCameraC w = None
  end.
Proof.
  intros Hcoh. pose proof Hcoh as [Hs Hc].
  pose proof (World_role_initialized w) as Hrole.
  split; [intros [H1 H2]; specialize (Hs H1); specialize (Hc H2);
          congruence|].
  split; [|split; [|split; [|split; [|]]]].
  - unfold World_initServer. prog_unfold. cbv beta.
    destruct (Network_initialized w) eqn:Hi; simpl.
    + rewrite Hrole in Hi. by destruct (World_role w).
    + unfold network_coherent, World_role, Network_init_server. simpl.
      split; [split; [reflexivity|]|reflexivity].
      intros H. specialize (Hc H).
      unfold Network_initialized in Hi. rewrite Hc in Hi.
      unfold Client.initialized in *. congruence.
  - unfold World_initClient. prog_unfold. cbv beta.
    destruct (Network_initialized w) eqn:Hi; simpl.
    + rewrite Hrole in Hi. by destruct (World_role w).
    + unfold network_coherent, World_role, Network_init_client. simpl.
      split; [split; [|reflexivity]|reflexivity].
      intros H. specialize (Hs H).
      unfold Network_initialized in Hi. rewrite Hs in Hi.
      unfold Server.initialized in *. congruence.
  - eexists. split; [reflexivity|].
    split; [by apply Network_destroy_coherent | reflexivity].
  - eexists. split; [reflexivity|].
    split; [by apply Network_destroy_coherent | reflexivity].
  - unfold World_resume. prog_unfold. cbv beta.
    destruct (m_mainCameraC w) as [cam|]; simpl; [|reflexivity].
    change (Network_initialized (set_environment ?x w))
      with (Network_initialized w).
    destruct (Network_initialized w) eqn:Hi.
    + split; [exact Hcoh | reflexivity].
    + unfold network_coherent, World_role in *. simpl.
      unfold Network_initialized in Hi.
      destruct (m_network w) eqn:Hn; simpl in *.
      * split; [exact Hcoh | reflexivity].
      * unfold Server.initialized in *. rewrite Hi.
        split; [|reflexivity]. split; [congruence|].
        intros H. specialize (Hc H). congruence.
      * unfold Client.initialized in *. rewrite Hi.
        split; [|reflexivity]. split; [|congruence].
        intros H. specialize (Hs H). congruence.
Qed.

Lemma World_network_exclusive_witness :
  network_coherent serverWorld /\
  (exists w', snd (World_destroyServer serverWorld) = Returns (tt, w') /\
              network_coherent w' /\ World_role w' = Disabled).
Proof.
  assert (H : network_coherent serverWorld).
  { split; [reflexivity|]. intros H. discriminate H. }
  split; [exact H|].
  exact (proj1 (proj2 (proj2 (proj2
           (World_network_exclusive idleBehaviours serverWorld 0 "" H))))).
Defined.

(** ** The player and the camera *)

(** X3.  [setPlayer] accepts every entity it can dereference, with or
    without a camera: it records the entity, raises [m_hasPlayer] and takes
    over whatever [getComponent<CameraComponent>] returns, makes no call and
    leaves everything else alone.  A following [resume] returns only if
    that entity had a camera; otherwise it aborts on the null camera before
    the environment is resumed. *)
Theorem World_setPlayer_then_resume (B : Behaviours) (w : World)
    (e : EntityPtr) :
  match entityAt w e with
  | Some ent =>
      let w1 := set_player e (getComponent Camera ent) w in
      World_setPlayer e w = ([], Returns (tt, w1)) /\
      m_player w1 = e /\ m_hasPlayer w1 = true /\
      m_entityPool w1 = m_entityPool w /\
      m_entityIDMap w1 = m_entityIDMap w /\
      match getComponent Camera ent with
      | Some _ =>
          exists w2,
            World_resume B w1 = ([Environment_resume_call], Returns (tt, w2)) /\
            m_player w2 = e /\ World_role w2 = World_role w
      | None => World_resume B w1 = ([], Faults NullDereference)
      end
  | None => World_setPlayer e w = ([], Faults NullDereference)
  end.
Proof.
  unfold World_setPlayer, World_resume. prog_unfold. cbv beta.
  destruct (entityAt w e) as [ent|]; [|reflexivity]. cbv zeta. simpl.
  split; [reflexivity|]. do 4 (split; [reflexivity|]).
  destruct (getComponent Camera ent) as [cam|]; [|reflexivity].
  simpl. eexists. split; [reflexivity|].
  change (Network_initialized (set_environment ?x (set_player ?a ?b w)))
    with (Network_initialized w).
  pose proof (World_role_initialized w) as Hrole.
  destruct (Network_initialized w); [split; reflexivity|].
  split; [reflexivity|].
  unfold World_role at 1. simpl. by destruct (World_role w).
Qed.

Example playerWorld_resumes :
  m_mainCameraC playerWorld = Some 0 /\
  snd (World_resume idleBehaviours
         (stateAfter (World_setPlayer (Some 0)) loneWorld))
    = Faults NullDereference.
Proof. split; reflexivity. Qed.

(** ** Creating and destroying entities *)

Lemma World_consistent_fresh_id (w : World) :
  World_consistent w -> m_entityIDMap w !! m_nextID (m_entityPool w) = None.
Proof.
  intros [Hagree Hbelow].
  destruct (m_entityIDMap w !! m_nextID (m_entityPool w)) as [e|] eqn:Hid;
    [|reflexivity].
  apply Hagree in Hid as (i & ent & _ & Hi & Halive & Hid).
  specialize (Hbelow i ent Hi Halive). lia.
Qed.

(** X4.  [createEntity] followed by [destroyEntity] of the handle it
    returned leaves the ID map exactly as it was before the two calls and
    the slot free again; every other slot is untouched, and the identity
    that was handed out is not handed out again. *)
Theorem World_create_destroy_round_trip (w : World) (i : nat) :
  World_consistent w ->
  firstFreeEntity (m_pool (m_entityPool w)) = Some i ->
  exists w1 w2,
    snd (World_createEntity w) = Returns (Some i, w1) /\
    snd (World_destroyEntity (Some i) w1) = Returns (tt, w2) /\
    m_entityIDMap w2 = m_entityIDMap w /\
    isLive (m_entityPool w2) i = false /\
    (forall j, j <> i ->
       m_pool (m_entityPool w2) !! j = m_pool (m_entityPool w) !! j) /\
    m_poolSize (m_entityPool w2) = m_poolSize (m_entityPool w) /\
    m_nextID (m_entityPool w2) = S (m_nextID (m_entityPool w)).
Proof.
  intros Hcons Hfree.
  pose proof (World_consistent_fresh_id w Hcons) as Hfresh.
  destruct (firstFreeEntity_Some _ _ Hfree) as (old & Hold & _).
  assert (Hlt : i < length (m_pool (m_entityPool w)))
    by (by eapply lookup_lt_Some).
  rewrite (World_createEntity_free w i Hfree). simpl.
  unfold EntityPool_create. rewrite Hfree. simpl.
  set (n := m_nextID (m_entityPool w)) in *.
  set (w1 := insertID n (Some i) _).
  assert (He : entityAt w1 (Some i)
               = Some (mkEntity n true (fun _ => None))).
  { unfold entityAt, w1. simpl. by apply list_lookup_insert_eq. }
  exists w1. eexists. split; [reflexivity|].
  rewrite (World_destroyEntity_run w1 (Some i) _ He). simpl.
  split; [reflexivity|].
  rewrite (recycle_pool w1 i _ He eq_refl). simpl.
  split; [by apply delete_insert_id|].
  split.
  { unfold isLive. simpl. rewrite list_insert_insert_eq.
    by rewrite list_lookup_insert_eq. }
  split.
  { intros j Hj. rewrite list_insert_insert_eq.
    by rewrite list_lookup_insert_ne. }
  split; [|reflexivity].
  unfold m_poolSize. simpl. by rewrite !length_insert.
Qed.

Lemma World_create_destroy_round_trip_witness :
  exists w1 w2,
    snd (World_createEntity loneWorld) = Returns (Some 1, w1) /\
    snd (World_destroyEntity (Some 1) w1) = Returns (tt, w2) /\
    m_entityIDMap w2 = m_entityIDMap loneWorld.
Proof.
  destruct (World_create_destroy_round_trip loneWorld 1 loneWorld_consistent)
    as (w1 & w2 & H1 & H2 & H3 & _); [vm_compute; reflexivity|].
  exists w1, w2. by repeat split.
Defined.

(** X5.  In a world whose ID map agrees with the pool, [getEntityPtr]
    returns a handle exactly for the IDs of live entities, and that handle
    is the entity's slot; creating another entity changes the answer for no
    ID that resolved before, and destroying a live entity changes the
    answer for no ID but its own. *)
Theorem World_getEntityPtr_stable (w : World) :
  World_consistent w ->
  (forall id i,
     World_getEntityPtr id w = Some i <->
     exists ent, m_pool (m_entityPool w) !! i = Some ent /\
                 m_alive ent = true /\ m_id ent = id) /\
  (forall e w1 id,
     snd (World_createEntity w) = Returns (e, w1) ->
     World_getEntityPtr id w <> None ->
     World_getEntityPtr id w1 = World_getEntityPtr id w) /\
  (forall i ent w2 id,
     entityAt w (Some i) = Some ent -> m_alive ent = true ->
     snd (World_destroyEntity (Some i) w) = Returns (tt, w2) ->
     id <> m_id ent ->
     World_getEntityPtr id w2 = World_getEntityPtr id w).
Proof.
  intros Hcons. pose proof Hcons as [Hagree _]. split; [|split].
  - intros id i. unfold World_getEntityPtr.
    destruct (m_entityIDMap w !! id) as [e|] eqn:Hid.
    + split.
      * intros ->. apply Hagree in Hid as (j & ent & [= <-] & Hj & Ha & Hi).
        by exists ent.
      * intros (ent & Hi & Ha & Hid').
        assert (H : m_entityIDMap w !! id = Some (Some i))
          by (apply Hagree; by exists i, ent).
        pose proof (eq_trans (eq_sym Hid) H) as Heq. by injection Heq.
    + split; [discriminate|].
      intros (ent & Hi & Ha & Hid').
      assert (H : m_entityIDMap w !! id = Some (Some i))
        by (apply Hagree; by exists i, ent).
      pose proof (eq_trans (eq_sym Hid) H) as Heq. discriminate Heq.
  - intros e w1 id Hrun Hsome.
    destruct (firstFreeEntity (m_pool (m_entityPool w))) as [i|] eqn:Hfree.
    + rewrite (World_createEntity_free w i Hfree) in Hrun.
      injection Hrun as <- <-.
      unfold World_getEntityPtr, insertID in *. simpl.
      rewrite lookup_insert_ne; [reflexivity|].
      intros <-. by rewrite (World_consistent_fresh_id w Hcons) in Hsome.
    + by rewrite (World_createEntity_exhausted w Hfree) in Hrun.
  - intros i ent w2 id He Halive Hrun Hne.
    rewrite (World_destroyEntity_run w (Some i) ent He) in Hrun.
    injection Hrun as <-.
    unfold World_getEntityPtr, recycle, eraseID. simpl.
    by rewrite lookup_delete_ne.
Qed.

Lemma World_getEntityPtr_stable_witness :
  World_getEntityPtr 0 (stateAfter World_createEntity loneWorld)
  = World_getEntityPtr 0 loneWorld.
Proof.
  destruct (World_getEntityPtr_stable loneWorld loneWorld_consistent)
    as (_ & Hcreate & _).
  apply (Hcreate (Some 1)); [vm_compute; reflexivity | vm_compute; discriminate].
Defined.

(** X6.  [destroyEntity] returns exactly for a handle it can dereference,
    whether or not the slot is live, and aborts with a null dereference
    for every other handle.  Destroying the same handle twice is harmless:
    whenever [destroyEntity] returns, a second [destroyEntity] of the same
    handle returns too and changes nothing. *)
Theorem World_destroyEntity_twice (w : World) (e : EntityPtr) :
  match entityAt w e with
  | Some _ =>
      exists w1,
        snd (World_destroyEntity e w) = Returns (tt, w1) /\
        snd (World_destroyEntity e w1) = Returns (tt, w1)
  | None => snd (World_destroyEntity e w) = Faults NullDereference
  end.
Proof.
  destruct (entityAt w e) as [ent|] eqn:He.
  - rewrite (World_destroyEntity_run w e ent He). simpl.
    eexists. split; [reflexivity|].
    destruct e as [i|]; [|discriminate]. simpl in He.
    assert (He1 : entityAt (recycle (Some i) (eraseID (m_id ent) w)) (Some i)
                  = Some (if m_alive ent
                          then mkEntity (m_id ent) false (fun _ => None)
                          else ent)).
    { unfold entityAt, recycle, eraseID, EntityPool_destroy. simpl.
      rewrite He. destruct (m_alive ent); simpl; [|exact He].
      apply list_lookup_insert_eq. by eapply lookup_lt_Some. }
    rewrite (World_destroyEntity_run _ _ _ He1). simpl.
    assert (Hid : m_id (if m_alive ent
                        then mkEntity (m_id ent) false (fun _ => None)
                        else ent) = m_id ent) by (by destruct (m_alive ent)).
    rewrite Hid. f_equal. f_equal.
    unfold recycle, eraseID, EntityPool_destroy. simpl. rewrite He.
    rewrite delete_delete_eq.
    destruct (m_alive ent) eqn:Halive; simpl.
    + rewrite list_lookup_insert_eq by (by eapply lookup_lt_Some).
      reflexivity.
    + rewrite He, Halive. reflexivity.
  - unfold World_destroyEntity. prog_unfold. cbv beta. by rewrite He.
Qed.

(** ** Capacity *)

Lemma countLive_le (slots : list Entity) : countLive slots <= length slots.
Proof.
  induction slots as [|ent rest IH]; simpl; [lia|].
  destruct (m_alive ent); lia.
Qed.

Lemma countLive_full (slots : list Entity) :
  firstFreeEntity slots = None -> countLive slots = length slots.
Proof.
  induction slots as [|ent rest IH]; simpl; [reflexivity|].
  destruct (m_alive ent); [|discriminate].
  destruct (firstFreeEntity rest); [discriminate|].
  intros _. by rewrite IH.
Qed.

Lemma countLive_free (slots : list Entity) (i : nat) :
  firstFreeEntity slots = Some i -> countLive slots < length slots.
Proof.
  revert i. induction slots as [|ent rest IH]; intros i; simpl;
    [discriminate|].
  destruct (m_alive ent).
  - destruct (firstFreeEntity rest) as [j|]; simpl; [|discriminate].
    intros _. specialize (IH j eq_refl). lia.
  - intros _. pose proof (countLive_le rest). lia.
Qed.

Lemma countLive_create (slots : list Entity) (i : nat) (ent : Entity) :
  firstFreeEntity slots = Some i -> m_alive ent = true ->
  countLive (<[i := ent]> slots) = S (countLive slots).
Proof.
  revert i. induction slots as [|old rest IH]; intros i; simpl;
    [discriminate|].
  destruct (m_alive old) eqn:Hold.
  - destruct (firstFreeEntity rest) as [j|]; simpl; [|discriminate].
    intros [= <-] Halive. simpl. rewrite Hold, (IH j); [lia|done|done].
  - intros [= <-] Halive. simpl. rewrite Halive. lia.
Qed.

Lemma countLive_insert (slots : list Entity) (i : nat) (old ent : Entity) :
  slots !! i = Some old ->
  countLive (<[i := ent]> slots) + (if m_alive old then 1 else 0)
  = countLive slots + (if m_alive ent then 1 else 0).
Proof.
  revert i. induction slots as [|x rest IH]; intros i; [discriminate|].
  destruct i as [|i]; simpl.
  - intros [= ->]. lia.
  - intros Hi. specialize (IH i Hi). lia.
Qed.

Lemma World_createEntity_count (w : World) :
  match snd (World_createEntity w) with
  | Returns (_, w1) =>
      liveCount w1 = S (liveCount w) /\
      m_poolSize (m_entityPool w1) = m_poolSize (m_entityPool w)
  | Faults _ => liveCount w = m_poolSize (m_entityPool w)
  end.
Proof.
  unfold liveCount, m_poolSize.
  destruct (firstFreeEntity (m_pool (m_entityPool w))) as [i|] eqn:Hfree.
  - rewrite (World_createEntity_free w i Hfree). simpl.
    unfold EntityPool_create. rewrite Hfree. simpl.
    rewrite length_insert. split; [|reflexivity].
    by apply countLive_create.
  - rewrite (World_createEntity_exhausted w Hfree). simpl.
    by apply countLive_full.
Qed.

(** X7.  The pool never holds more live entities than it has slots, and
    neither [createEntity] nor [destroyEntity] changes the number of slots.
    [createEntity] returns exactly when a slot is free and then raises the
    number of live entities by one; when it aborts, every slot is live.
    [destroyEntity] lowers the number by one for a live entity and leaves it
    alone for a handle that is already free. *)
Theorem World_pool_accounting (w : World) (e : EntityPtr) :
  liveCount w <= m_poolSize (m_entityPool w) /\
  match snd (World_createEntity w) with
  | Returns (_, w1) =>
      liveCount w1 = S (liveCount w) /\
      m_poolSize (m_entityPool w1) = m_poolSize (m_entityPool w)
  | Faults _ => liveCount w = m_poolSize (m_entityPool w)
  end /\
  match snd (World_destroyEntity e w) with
  | Returns (_, w2) =>
      liveCount w2 + (if isLive (m_entityPool w) (default 0 e) then 1 else 0)
        = liveCount w /\
      m_poolSize (m_entityPool w2) = m_poolSize (m_entityPool w)
  | Faults _ => entityAt w e = None
  end.
Proof.
  split; [apply countLive_le|]. split; [apply World_createEntity_count|].
  unfold liveCount, m_poolSize.
  destruct (entityAt w e) as [ent|] eqn:He.
  - rewrite (World_destroyEntity_run w e ent He). simpl.
    destruct e as [i|]; [|discriminate]. simpl in He.
    unfold isLive, recycle, eraseID, EntityPool_destroy. simpl.
    rewrite He. destruct (m_alive ent) eqn:Halive; simpl.
    + rewrite length_insert. split; [|reflexivity].
      pose proof (countLive_insert _ i ent
                    (mkEntity (m_id ent) false (fun _ => None)) He) as H.
      rewrite Halive in H. simpl in H. lia.
    + split; [lia | reflexivity].
  - unfold World_destroyEntity. prog_unfold. cbv beta. by rewrite He.
Qed.

Lemma countLive_replicate (n : nat) (ent : Entity) :
  m_alive ent = false -> countLive (replicate n ent) = 0.
Proof. intros H. induction n as [|n IH]; simpl; [|rewrite H]; done. Qed.

Lemma createEntity_iter_count (w : World) (k : nat) :
  liveCount w + k <= m_poolSize (m_entityPool w) ->
  liveCount (Nat.iter k (stateAfter World_createEntity) w) = liveCount w + k /\
  m_poolSize (m_entityPool (Nat.iter k (stateAfter World_createEntity) w))
  = m_poolSize (m_entityPool w).
Proof.
  induction k as [|k IH]; intros Hle; simpl; [split; [lia|reflexivity]|].
  destruct IH as [IHc IHs]; [lia|].
  set (wk := Nat.iter k (stateAfter World_createEntity) w) in *.
  pose proof (World_createEntity_count wk) as H.
  unfold stateAfter.
  destruct (World_createEntity wk) as [calls [[r w1]|f]]; simpl in H.
  - destruct H as [Hc Hs]. split; [lia | congruence].
  - lia.
Qed.

(** X8.  A world that [World::init] has just set up has a pool of 256 free
    slots: [createEntity] returns for each of the first 256 calls in a row,
    with that many entities live afterwards, and aborts on the next one. *)
Theorem World_init_capacity (deps : Dependencies) (env : Environment)
    (factory : ComponentFactory) (usePhysics : bool) (k : nat) :
  k <= 256 ->
  let wk := Nat.iter k (stateAfter World_createEntity)
              (World_init deps env factory usePhysics) in
  liveCount wk = k /\
  match snd (World_createEntity wk) with
  | Returns (r, _) => k < 256 /\ r <> None
  | Faults f => k = 256 /\ f = NullDereference
  end.
Proof.
  intros Hk. cbv zeta.
  set (w0 := World_init deps env factory usePhysics).
  assert (H0 : liveCount w0 = 0) by (by apply countLive_replicate).
  assert (Hs0 : m_poolSize (m_entityPool w0) = 256).
  { unfold m_poolSize, w0, World_init, EntityPool_new. cbn [m_entityPool m_pool].
    apply length_replicate. }
  destruct (createEntity_iter_count w0 k) as [Hc Hs]; [lia|].
  set (wk := Nat.iter k (stateAfter World_createEntity) w0) in *.
  split; [lia|].
  destruct (firstFreeEntity (m_pool (m_entityPool wk))) as [i|] eqn:Hfree.
  - rewrite (World_createEntity_free wk i Hfree). simpl.
    split; [|discriminate].
    pose proof (countLive_free _ _ Hfree) as Hlt.
    unfold liveCount, m_poolSize in *. lia.
  - rewrite (World_createEntity_exhausted wk Hfree). simpl.
    split; [|reflexivity].
    pose proof (countLive_full _ Hfree) as Hfull.
    unfold liveCount, m_poolSize in *. lia.
Qed.

Lemma World_init_capacity_witness :
  liveCount fullWorld = 256 /\
  snd (World_createEntity fullWorld) = Faults NullDereference.
Proof.
  pose proof (World_init_capacity offlineDeps (EnvironmentState 0)
                smallFactory true 256 (le_n 256)) as H.
  cbv zeta in H. split.
  - unfold fullWorld, freshWorld. destruct H as [H1 _]. apply H1.
  - vm_compute. reflexivity.
Defined.

(** ** The physics system, once more *)

Lemma copyPose_sceneFrom (t : PxTransform) (s : SceneComponent) :
  copyPose t s = sceneFrom t.
Proof. reflexivity. Qed.

Lemma PhysicsSystem_updateEntity_eq (w : World) (e : EntityPtr) :
  PhysicsSystem_updateEntity e w
  = match poseAndScene w e with
    | Some (t, sc) =>
        Returns (withScenePool
                   (Pool_set (m_scenePool (m_componentFactory w)) sc
                      (sceneFrom t)) w)
    | None => Faults NullDereference
    end.
Proof.
  destruct (poseAndScene w e) as [[t sc]|] eqn:Hps.
  - by destruct (PhysicsSystem_updateEntity_ready w e t sc Hps)
      as (s & _ & ->).
  - by apply PhysicsSystem_updateEntity_stuck.
Qed.

Lemma Pool_set_commute {T : Type} (pool : Pool T) (i j : nat) (u v : T) :
  i <> j ->
  Pool_set (Pool_set pool i u) j v = Pool_set (Pool_set pool j v) i u.
Proof. intros Hne. unfold Pool_set. by apply list_alter_alter_ne. Qed.

(** Two steps of the loop can be taken in either order. *)
Lemma PhysicsSystem_updateEntity_commute (w : World) (e1 e2 : EntityPtr) :
  (forall sc, sceneOf w e1 = Some sc -> sceneOf w e2 = Some sc -> e1 = e2) ->
  Outcome_bind (PhysicsSystem_updateEntity e1 w)
    (PhysicsSystem_updateEntity e2)
  = Outcome_bind (PhysicsSystem_updateEntity e2 w)
      (PhysicsSystem_updateEntity e1).
Proof.
  intros Hown. rewrite (PhysicsSystem_updateEntity_eq w e1).
  rewrite (PhysicsSystem_updateEntity_eq w e2).
  destruct (poseAndScene w e1) as [[t1 s1]|] eqn:H1;
    destruct (poseAndScene w e2) as [[t2 s2]|] eqn:H2; simpl;
    rewrite ?PhysicsSystem_updateEntity_eq;
    rewrite ?withScenePool_poseAndScene by apply Pool_set_length;
    rewrite ?H1, ?H2; try reflexivity.
  simpl. f_equal.
  change (withScenePool ?p2 (withScenePool ?p1 w)) with (withScenePool p2 w).
  destruct (decide (s1 = s2)) as [->|Hne].
  - apply poseAndScene_Some in H1 as [Ht1 Hs1].
    apply poseAndScene_Some in H2 as [Ht2 Hs2].
    specialize (Hown s2 Hs1 Hs2). subst e2.
    assert (t1 = t2) as -> by congruence. reflexivity.
  - unfold withScenePool. simpl. by rewrite Pool_set_commute.
Qed.

Lemma owns_frame (w : World) (pool : Pool SceneComponent)
    (tracked : list (EntityID * EntityPtr)) :
  length pool = length (m_scenePool (m_componentFactory w)) ->
  owns w tracked -> owns (withScenePool pool w) tracked.
Proof.
  intros Hlen Howns e1 e2 sc H1 H2.
  rewrite !withScenePool_sceneOf by exact Hlen. by apply Howns.
Qed.

Lemma PhysicsSystem_updateLoop_perm (l l' : list (EntityID * EntityPtr)) :
  l ≡ₚ l' ->
  forall w, owns w l ->
    PhysicsSystem_updateLoop l w = PhysicsSystem_updateLoop l' w.
Proof.
  induction 1 as [|x l l' Hperm IH|x y l|l l' l'' H1 IH1 H2 IH2];
    intros w Howns.
  - reflexivity.
  - simpl. unfold mbind, Outcome_mbind.
    rewrite PhysicsSystem_updateEntity_eq.
    destruct (poseAndScene w (snd x)) as [[t sc]|]; [|reflexivity].
    simpl. apply IH. apply owns_frame; [apply Pool_set_length|].
    intros e1 e2 sc' Hin1 Hin2. apply Howns; simpl;
      apply elem_of_cons; by right.
  - simpl. unfold mbind, Outcome_mbind.
    assert (Hxy : forall sc, sceneOf w (snd y) = Some sc ->
                             sceneOf w (snd x) = Some sc -> snd y = snd x).
    { intros sc. apply Howns; simpl.
      - apply elem_of_cons. by left.
      - apply elem_of_cons. right. apply elem_of_cons. by left. }
    pose proof (PhysicsSystem_updateEntity_commute w _ _ Hxy) as Hc.
    destruct (PhysicsSystem_updateEntity (snd y) w) as [wy|fy];
      destruct (PhysicsSystem_updateEntity (snd x) w) as [wx|fx];
      simpl in *.
    + destruct (PhysicsSystem_updateEntity (snd x) wy) as [wyx|f1];
        destruct (PhysicsSystem_updateEntity (snd y) wx) as [wxy|f2];
        simpl; congruence.
    + by destruct (PhysicsSystem_updateEntity (snd x) wy).
    + by destruct (PhysicsSystem_updateEntity (snd y) wx).
    + exact Hc.
  - rewrite IH1 by exact Howns. apply IH2.
    intros e1 e2 sc Hin1 Hin2. apply Howns; by rewrite H1.
Qed.

(** X9.  When every scene component belongs to one tracked entity, the
    outcome of [PhysicsSystem::update] does not depend on the order in which
    the loop meets the tracked entries: two systems tracking the same
    entries in different orders leave the same world, or abort alike. *)
Theorem PhysicsSystem_update_order_irrelevant (sys sys' : PhysicsSystem)
    (w : World) :
  m_entities sys ≡ₚ m_entities sys' ->
  owns w (m_entities sys) ->
  PhysicsSystem_update sys w = PhysicsSystem_update sys' w.
Proof.
  intros Hperm Howns. unfold PhysicsSystem_update.
  by apply PhysicsSystem_updateLoop_perm.
Qed.

Lemma PhysicsSystem_update_order_irrelevant_witness :
  PhysicsSystem_update (mkPhysicsSystem [(0, Some 0); (1, Some 1)]) twinWorld
  = PhysicsSystem_update (mkPhysicsSystem [(1, Some 1); (0, Some 0)])
      twinWorld.
Proof.
  apply PhysicsSystem_update_order_irrelevant.
  - apply perm_swap.
  - intros e1 e2 sc H1 H2. simpl in H1, H2.
    apply elem_of_cons in H1 as [->|H1];
      [|apply list_elem_of_singleton in H1 as ->];
      (apply elem_of_cons in H2 as [->|H2];
       [|apply list_elem_of_singleton in H2 as ->]);
      vm_compute; congruence.
Defined.

Example twinWorld_tracks :
  trackedEntries twinWorld = [(0, Some 0); (1, Some 1)] /\
  sceneOf twinWorld (Some 0) = Some 0 /\
  sceneOf twinWorld (Some 1) = Some 1 /\
  scenePose (stateAfter (World_update fallingBehaviours) twinWorld) (Some 1)
    = Some (poseOf restPose).
Proof. vm_compute. repeat split; reflexivity. Qed.

Lemma lastWrite_frame (w : World) (pool : Pool SceneComponent)
    (tracked : list (EntityID * EntityPtr)) (j : nat) :
  length pool = length (m_scenePool (m_componentFactory w)) ->
  lastWrite (withScenePool pool w) tracked j = lastWrite w tracked j.
Proof.
  intros Hlen. induction tracked as [|i rest IH]; simpl; [reflexivity|].
  rewrite IH, withScenePool_poseAndScene by exact Hlen. reflexivity.
Qed.

(** What the loop leaves in each slot of the scene pool. *)
Lemma PhysicsSystem_updateLoop_lookup (tracked : list (EntityID * EntityPtr))
    (w w' : World) :
  PhysicsSystem_updateLoop tracked w = Returns w' ->
  exists pool,
    w' = withScenePool pool w /\
    length pool = length (m_scenePool (m_componentFactory w)) /\
    forall j,
      pool !! j
      = (fun s => match lastWrite w tracked j with
                  | Some t => mkSlot (inUse s) (sceneFrom t)
                  | None => s
                  end) <$> m_scenePool (m_componentFactory w) !! j.
Proof.
  revert w. induction tracked as [|i rest IH]; intros w; simpl.
  - intros [= <-]. exists (m_scenePool (m_componentFactory w)).
    split; [symmetry; apply withScenePool_id|]. split; [reflexivity|].
    intros j. by destruct (_ !! j).
  - unfold mbind, Outcome_mbind. rewrite PhysicsSystem_updateEntity_eq.
    destruct (poseAndScene w (snd i)) as [[t sc]|]; [|discriminate].
    simpl. intros Hrun.
    set (pool1 := Pool_set (m_scenePool (m_componentFactory w)) sc
                    (sceneFrom t)) in *.
    assert (Hlen1 : length pool1
                    = length (m_scenePool (m_componentFactory w)))
      by apply Pool_set_length.
    apply IH in Hrun as (pool & -> & Hlen & Hlookup).
    exists pool. split; [reflexivity|].
    split; [simpl in Hlen; congruence|].
    intros j. rewrite Hlookup. simpl.
    rewrite (lastWrite_frame w pool1 rest j Hlen1).
    unfold pool1, Pool_set.
    destruct (lastWrite w rest j) as [t'|];
      destruct (decide (sc = j)) as [->|Hne];
      rewrite ?list_lookup_alter_eq, ?list_lookup_alter_ne by exact Hne;
      by destruct (_ !! j).
Qed.

(** X10.  [PhysicsSystem::update] writes scene components and nothing else:
    the engine's poses, the ID map and every other part of the world stay
    as they are, and the scene pool keeps its slots and their in-use marks.
    Running the update again before the engine has moved changes nothing:
    the second run returns the world the first one left. *)
Theorem PhysicsSystem_update_idempotent (sys : PhysicsSystem) (w : World) :
  match PhysicsSystem_update sys w with
  | Returns w' =>
      w' = withScenePool (m_scenePool (m_componentFactory w')) w /\
      inUse <$> m_scenePool (m_componentFactory w')
        = inUse <$> m_scenePool (m_componentFactory w) /\
      PhysicsSystem_update sys w' = Returns w'
  | Faults f => f = NullDereference
  end.
Proof.
  unfold PhysicsSystem_update.
  pose proof (PhysicsSystem_updateLoop_spec (m_entities sys) w) as Hspec.
  destruct (PhysicsSystem_updateLoop (m_entities sys) w) as [w'|f] eqn:Hrun;
    [|by destruct Hspec].
  destruct Hspec as [Hready _].
  apply PhysicsSystem_updateLoop_lookup in Hrun
    as (pool & -> & Hlen & Hlookup).
  split; [reflexivity|]. split.
  { simpl. apply list_eq. intros j. rewrite !list_lookup_fmap, Hlookup.
    destruct (_ !! j) as [s|]; simpl; [|reflexivity].
    by destruct (lastWrite w (m_entities sys) j). }
  pose proof (PhysicsSystem_updateLoop_spec (m_entities sys)
                (withScenePool pool w)) as Hspec2.
  destruct (PhysicsSystem_updateLoop (m_entities sys) (withScenePool pool w))
    as [w''|f] eqn:Hrun2.
  - apply PhysicsSystem_updateLoop_lookup in Hrun2
      as (pool2 & -> & Hlen2 & Hlookup2).
    f_equal.
    change (withScenePool pool2 (withScenePool pool w))
      with (withScenePool pool2 w).
    f_equal. apply list_eq. intros j. rewrite Hlookup2. simpl.
    rewrite (lastWrite_frame w pool _ j Hlen), Hlookup.
    destruct (_ !! j) as [s|]; simpl; [|reflexivity].
    by destruct (lastWrite w (m_entities sys) j).
  - destruct Hspec2 as [_ (id & e & Hin & Hnone)].
    rewrite withScenePool_poseAndScene in Hnone by exact Hlen.
    destruct (Hready id e Hin) as [x Hx]. congruence.
Qed.

(** ** The MoveBackward command, once more *)

(** X11.  [execute] and [unexecute] return exactly for an entity that
    holds an actor component and abort on a null dereference otherwise.
    When they return they have written one slot of the actor pool and
    nothing else in the world, and the flag of every entity with another
    actor component is what it was. *)
Theorem MoveBackwardCommand_scope (w : World) (e : EntityPtr) :
  match movingBackward w e with
  | Some _ =>
      exists a w1 w2,
        actorOf w e = Some a /\
        MoveBackwardCommand_execute e w = Returns w1 /\
        MoveBackwardCommand_unexecute e w = Returns w2 /\
        w1 = withActorPool (m_actorPool (m_componentFactory w1)) w /\
        w2 = withActorPool (m_actorPool (m_componentFactory w2)) w /\
        forall e', actorOf w e' <> Some a ->
          movingBackward w1 e' = movingBackward w e' /\
          movingBackward w2 e' = movingBackward w e'
  | None =>
      MoveBackwardCommand_execute e w = Faults NullDereference /\
      MoveBackwardCommand_unexecute e w = Faults NullDereference
  end.
Proof.
  unfold movingBackward, actorOf, MoveBackwardCommand_execute,
    MoveBackwardCommand_unexecute.
  destruct (entityAt w e) as [ent|] eqn:He; simpl; [|by split].
  destruct (getComponent Actor ent) as [a|] eqn:Hc; simpl; [|by split].
  destruct (Pool_get (m_actorPool (m_componentFactory w)) a) as [x|] eqn:Ha;
    simpl; [|by split].
  eexists a, _, _. split; [reflexivity|].
  split; [reflexivity|]. split; [reflexivity|].
  split; [reflexivity|]. split; [reflexivity|].
  intros e'.
  change (entityAt (set_componentFactory ?f w) e') with (entityAt w e').
  destruct (entityAt w e') as [ent'|]; simpl; [|by split].
  destruct (getComponent Actor ent') as [a'|]; simpl; [|by split].
  intros Hne. assert (a <> a') by congruence.
  by rewrite !Pool_get_set_ne.
Qed.

Lemma MoveBackwardCommand_scope_witness :
  movingBackward
    (match MoveBackwardCommand_execute (Some 0) actorPairWorld with
     | Returns w1 => w1
     | Faults _ => actorPairWorld
     end) (Some 1)
  = movingBackward actorPairWorld (Some 1).
Proof.
  pose proof (MoveBackwardCommand_scope actorPairWorld (Some 0)) as H.
  change (movingBackward actorPairWorld (Some 0)) with (Some false) in H.
  destruct H as (a & w1 & w2 & Ha & -> & _ & _ & _ & Hother).
  injection Ha as <-.
  apply (Hother (Some 1)). vm_compute. discriminate.
Defined.

(** ** Attaching components, once more *)

Lemma World_attachComponent_returns (B : Behaviours) (k : ComponentKind)
    (e : EntityPtr) (w : World) :
  initKeepsEntities B ->
  match snd (World_attachComponent B k e w) with
  | Returns (c, w3) =>
      exists ci i ent,
        c = Some ci /\ fst (allocate k w) = Some ci /\
        slotAt w e = Some (i, ent) /\ e = Some i /\
        w3 = setEntityAt i (Entity_attachComponent k ci ent)
               (initialise B k ci (snd (allocate k w)))
  | Faults f => f = NullDereference
  end.
Proof.
  intros Hinit.
  pose proof (allocate_entityPool k w) as Hpool.
  unfold World_attachComponent, initComponent. prog_unfold. cbv beta.
  destruct (allocate k w) as [[c|] w1]; simpl in *; [|reflexivity].
  assert (Hslot : slotAt (initialise B k c w1) e = slotAt w e).
  { unfold slotAt, initialise.
    destruct (Hinit k c w1) as (-> & _). by rewrite Hpool. }
  rewrite Hslot.
  destruct (slotAt w e) as [[i ent]|] eqn:Hw; [|reflexivity].
  simpl. exists c, i, ent. repeat split; try reflexivity.
  unfold slotAt in Hw. destruct e as [j|]; [|discriminate]. simpl in Hw.
  destruct (m_pool (m_entityPool w) !! j); [|discriminate].
  by injection Hw as -> _.
Qed.

(** X12.  With components whose [init] leaves the entities, the ID map,
    the systems and the network pointer alone: when [attachComponent<Kind>]
    returns, the only entity it has changed is the one it was given, and
    of that entity only the component of that kind: identity, liveness and
    the components of the other kinds are as before, as are all other
    slots, the capacity of the pool and the ID map.  The tracked sets of
    the systems are unchanged too: the entity is not offered to any
    system.  The call does not ask whether the slot is live. *)
Theorem World_attachComponent_scope (B : Behaviours) (k : ComponentKind)
    (e : EntityPtr) (w : World) :
  initKeepsEntities B ->
  match snd (World_attachComponent B k e w) with
  | Returns (c, w3) =>
      m_entityIDMap w3 = m_entityIDMap w /\
      m_systemManager w3 = m_systemManager w /\
      m_network w3 = m_network w /\
      m_poolSize (m_entityPool w3) = m_poolSize (m_entityPool w) /\
      (forall j, Some j <> e ->
         m_pool (m_entityPool w3) !! j = m_pool (m_entityPool w) !! j) /\
      m_id <$> entityAt w3 e = m_id <$> entityAt w e /\
      m_alive <$> entityAt w3 e = m_alive <$> entityAt w e /\
      (forall k', k' <> k ->
         getComponent k' <$> entityAt w3 e = getComponent k' <$> entityAt w e)
  | Faults f => f = NullDereference
  end.
Proof.
  intros Hinit.
  pose proof (World_attachComponent_returns B k e w Hinit) as H.
  destruct (snd (World_attachComponent B k e w)) as [[c w3]|f]; [|exact H].
  destruct H as (ci & i & ent & -> & Hc & Hslot & -> & ->).
  assert (Hent : m_pool (m_entityPool w) !! i = Some ent).
  { unfold slotAt in Hslot. simpl in Hslot.
    destruct (m_pool (m_entityPool w) !! i); [|discriminate].
    by injection Hslot as ->. }
  assert (Hlt : i < length (m_pool (m_entityPool w)))
    by (by eapply lookup_lt_Some).
  destruct (Hinit k ci (snd (allocate k w))) as (Hp & Hm & Hs & Hn).
  assert (Hw1 : m_entityPool (snd (allocate k w)) = m_entityPool w /\
                m_entityIDMap (snd (allocate k w)) = m_entityIDMap w /\
                m_systemManager (snd (allocate k w)) = m_systemManager w /\
                m_network (snd (allocate k w)) = m_network w).
  { unfold allocate.
    destruct (ComponentFactory_create k (m_componentFactory w)).
    simpl. by repeat split. }
  destruct Hw1 as (Hp1 & Hm1 & Hs1 & Hn1).
  unfold initialise, m_poolSize, entityAt, setEntityAt. simpl.
  rewrite Hp, Hm, Hs, Hn, Hp1, Hm1, Hs1, Hn1.
  rewrite length_insert, list_lookup_insert_eq, Hent by exact Hlt. simpl.
  repeat split; try reflexivity.
  - intros j Hj. rewrite list_lookup_insert_ne; [reflexivity|congruence].
  - intros k' Hk. unfold getComponent. simpl. by rewrite decide_False.
Qed.

Lemma World_attachComponent_scope_witness :
  initKeepsEntities idleBehaviours /\
  getComponent Actor
    <$> entityAt
          (stateAfter (World_attachComponent idleBehaviours Camera (Some 0))
             actorWorld) (Some 0)
  = getComponent Actor <$> entityAt actorWorld (Some 0).
Proof.
  assert (Hinit : initKeepsEntities idleBehaviours)
    by (intros k c w; by repeat split).
  split; [exact Hinit|].
  pose proof (World_attachComponent_scope idleBehaviours Camera (Some 0)
                actorWorld Hinit) as H.
  unfold stateAfter.
  destruct (World_attachComponent idleBehaviours Camera (Some 0) actorWorld)
    as [calls [[c w3]|f]]; simpl in H; [|reflexivity].
  destruct H as (_ & _ & _ & _ & _ & _ & _ & Hkinds).
  apply Hkinds. discriminate.
Defined.

(** ** Dynamic lines *)

(** X13.  [getNumPoints] reports the number of points only while the list
    holds fewer than 65536 of them: the count is cut to 16 bits, so 65536
    more points give the same answer.  [setOperationType] changes neither
    the points nor their count, and [getOperationType] returns what was
    set. *)
Theorem DynamicLines_getNumPoints_wraps (d : DynamicLines)
    (type : OperationType) (more : list Vector3) :
  (0 <= getNumPoints d < 65536)%Z /\
  (getNumPoints d = Z.of_nat (length (m_points d))
   <-> (Z.of_nat (length (m_points d)) < 65536)%Z) /\
  (Z.of_nat (length more) = 65536%Z ->
   getNumPoints (mkDynamicLines (m_points d ++ more) (m_dirty d)
                   (mRenderOp_operationType d))
   = getNumPoints d) /\
  getNumPoints (setOperationType type d) = getNumPoints d /\
  getOperationType (setOperationType type d) = type.
Proof.
  unfold getNumPoints. simpl.
  change (2 ^ 16)%Z with 65536%Z.
  split; [apply Z.mod_pos_bound; lia|]. split; [|split; [|by split]].
  - split.
    + intros H.
      pose proof (Z.mod_pos_bound (Z.of_nat (length (m_points d))) 65536).
      lia.
    + intros H. apply Z.mod_small. lia.
  - intros Hlen. rewrite length_app, Nat2Z.inj_add, Hlen.
    change 65536%Z with (1 * 65536)%Z at 1.
    by rewrite Z.mod_add.
Qed.

Lemma DynamicLines_getNumPoints_wraps_witness :
  getNumPoints
    (mkDynamicLines (replicate (Z.to_nat 65536) (mkVector3 0 0 0)%Z) false
       OT_LINE_STRIP) = 0%Z.
Proof.
  destruct (DynamicLines_getNumPoints_wraps
              (mkDynamicLines [] false OT_LINE_STRIP) OT_LINE_STRIP
              (replicate (Z.to_nat 65536) (mkVector3 0 0 0)%Z))
    as (_ & _ & H & _).
  apply H. rewrite length_replicate. apply Z2Nat.id. lia.
Defined.

(** ** The frame, once more *)

(** X14.  In a frame in which the network and the entities have nothing to
    do, [World::update] creates, destroys and registers nothing by itself:
    when it returns, the entity pool, the ID map, the network pointer with
    both back ends and the tracked sets of the systems are what they were,
    and with physics disabled so are the engine's poses.  It aborts only on
    a null dereference. *)
Theorem World_update_quiet_scope (B : Behaviours) (w : World) :
  quietFrame B ->
  match snd (World_update B w) with
  | Returns (_, w') =>
      m_entityPool w' = m_entityPool w /\
      m_entityIDMap w' = m_entityIDMap w /\
      m_network w' = m_network w /\
      m_server w' = m_server w /\ m_client w' = m_client w /\
      m_systemManager w' = m_systemManager w /\
      m_usePhysics w' = m_usePhysics w /\
      m_PScene w' = (if m_usePhysics w then PScene_simulate B (m_PScene w)
                     else m_PScene w)
  | Faults f => f = NullDereference
  end.
Proof.
  intros Hquiet.
  rewrite World_update_run, (Network_update_quiet B w Hquiet).
  unfold SystemManager_update. rewrite SystemManager_updateLoop_flat.
  pose proof (PhysicsSystem_updateLoop_spec
                (m_systems (m_systemManager w) ≫= m_entities) w) as Hspec.
  destruct (PhysicsSystem_updateLoop _ w) as [w2|f]; [|by destruct Hspec].
  destruct Hspec as [_ (pool & -> & _)].
  cbv zeta. rewrite (entityLoop_quiet B _ Hquiet).
  change (m_usePhysics (withScenePool pool w)) with (m_usePhysics w).
  destruct (m_usePhysics w) eqn:Hphys; simpl;
    repeat split; try reflexivity; exact Hphys.
Qed.

Lemma World_update_quiet_scope_witness :
  m_entityIDMap (stateAfter (World_update fallingBehaviours) physicsWorld)
  = m_entityIDMap physicsWorld.
Proof.
  assert (Hquiet : quietFrame fallingBehaviours)
    by (repeat split; reflexivity).
  pose proof (World_update_quiet_scope fallingBehaviours physicsWorld Hquiet)
    as H.
  unfold stateAfter.
  destruct (World_update fallingBehaviours physicsWorld)
    as [calls [[[] w']|f]]; simpl in H; [|reflexivity].
  by destruct H as (_ & -> & _).
Defined.
